(** * The embedding backfill job of [generate_embeddings.py]

    A shallow embedding of [LocalEmbeddingGenerator] and [main], and the
    properties of the job stated over it.

    Layout:
    - Python values as the database driver hands them over (decoded JSON),
      with [str()], truthiness, [dict.get] and [str.strip];
    - exceptions and the [try]/[except]/[finally] combinators;
    - the [resource_embeddings] table, the statements the script sends and
      the driver's connection and cursor;
    - the methods of the class, one definition each, in source order;
    - the theorems.

    Calls to [logger] only format and print already computed values; they
    are left out of the embedding. *)

From Stdlib Require Import ZArith List String Ascii Bool Lia.
From Stdlib Require Import DecimalString DecimalZ Permutation Sorted.
From Stdlib Require Import PrimFloat.
Import ListNotations.

Local Open Scope string_scope.
Local Open Scope Z_scope.

(* ================================================================= *)
(** ** Python values *)

(** What [psycopg2] returns for a JSON column: the decoded document.
    [int] is unbounded, [float] is an IEEE double, a [dict] keeps its
    items in insertion order and its keys are strings. *)
#[warnings="-register-all"]
Inductive pyval : Type :=
| PNone
| PBool (b : bool)
| PInt (z : Z)
| PFloat (f : float)
| PStr (s : string)
| PList (items : list pyval)
| PDict (items : list (string * pyval)).

Definition vector := list float.

(** The line feed inside the triple-quoted template. *)
Definition nl : string := String (ascii_of_nat 10) EmptyString.

Fixpoint join (sep : string) (parts : list string) : string :=
  match parts with
  | [] => ""
  | [p] => p
  | p :: rest => p ++ sep ++ join sep rest
  end.

Definition str_of_int (z : Z) : string := NilZero.string_of_int (Z.to_int z).

(* ================================================================= *)
(** ** Exceptions *)

Inductive exn : Type :=
| AttributeError
| NameError
| RuntimeError
| ProgrammingError
| OperationalError
| ModelError
| TypeError
| ValueError
| RecursionError
| SystemExit (code : Z).

(** [isinstance(e, Exception)]: [SystemExit] derives from
    [BaseException] only. *)
Definition is_Exception (e : exn) : bool :=
  match e with
  | SystemExit _ => false
  | _ => true
  end.

Inductive outcome (A : Type) : Type :=
| Ok (a : A)
| Raise (e : exn).
Arguments Ok {A} a.
Arguments Raise {A} e.

Module Exc.

Definition bind {A B} (m : outcome A) (k : A -> outcome B) : outcome B :=
  match m with
  | Ok a => k a
  | Raise e => Raise e
  end.

(** [try: body / except Exception as e: handler e]. *)
Definition try_except {A} (body : outcome A) (handler : exn -> outcome A) : outcome A :=
  match body with
  | Ok a => Ok a
  | Raise e => if is_Exception e then handler e else Raise e
  end.

(** The results of [f] over a list, left to right, up to the first
    one that raises. *)
Definition traverse {A B} (f : A -> outcome B) : list A -> outcome (list B) :=
  fix go (l : list A) : outcome (list B) :=
    match l with
    | [] => Ok []
    | x :: rest =>
        match f x with
        | Ok y => match go rest with
                  | Ok ys => Ok (y :: ys)
                  | Raise e => Raise e
                  end
        | Raise e => Raise e
        end
    end.

End Exc.

Declare Scope exc_scope.
Delimit Scope exc_scope with exc.
Notation "x <- m ;; k" := (Exc.bind m (fun x => k))
  (at level 100, m at next level, right associativity) : exc_scope.

(* ================================================================= *)
(** ** The interpreter and [str()] *)

(** What the interpreter and the libraries give that is not computed
    here: [repr] of a float and of a string (shortest round-trip digits,
    quoting and escapes), the two limits of the interpreter that make
    [str()] raise, the process environment and the pretrained model. *)
Class Platform : Type := {
  float_repr : float -> string;
  str_repr : string -> string;
  (** [sys.get_int_max_str_digits()]: 4300 unless configured, [0] for
      no limit. *)
  int_max_str_digits : nat;
  (** How many nested calls of [repr] fit under the recursion limit
      where [format_resource_text] runs. *)
  repr_depth : nat;
  Model : Type;
  (** [SentenceTransformer(name)]: [None] when construction raises. *)
  pretrained : string -> option Model;
  (** [model.encode(text).tolist()]: [None] when it raises. *)
  encode : Model -> string -> option vector;
  (** [os.environ.get]. *)
  environ : string -> option string
}.

Definition decimal_digits (z : Z) : nat := String.length (str_of_int (Z.abs z)).

Section Values.
Context {P : Platform}.

(** [repr] of an [int]: a [ValueError] when the decimal form is longer
    than the interpreter allows. *)
Definition int_repr (z : Z) : outcome string :=
  if (Nat.ltb 0 int_max_str_digits && Nat.ltb int_max_str_digits (decimal_digits z))%bool
  then Raise ValueError
  else Ok (str_of_int z).

(** [repr(v)] with room for [budget] nested calls: each object costs
    one, containers pass what is left to their items, and a
    [RecursionError] is raised when nothing is left. *)
Fixpoint py_repr_at (v : pyval) (budget : nat) {struct v} : outcome string :=
  match budget with
  | O => Raise RecursionError
  | S deeper =>
      match v with
      | PNone => Ok "None"
      | PBool true => Ok "True"
      | PBool false => Ok "False"
      | PInt z => int_repr z
      | PFloat f => Ok (float_repr f)
      | PStr s => Ok (str_repr s)
      | PList items =>
          (parts <- Exc.traverse (fun x => py_repr_at x deeper) items;;
           Ok ("[" ++ join ", " parts ++ "]"))%exc
      | PDict items =>
          (parts <- Exc.traverse
                      (fun kv : string * pyval =>
                         let (k, x) := kv in
                         shown <- py_repr_at x deeper;;
                         Ok (str_repr k ++ ": " ++ shown))
                      items;;
           Ok ("{" ++ join ", " parts ++ "}"))%exc
      end
  end.

(** [str(v)], which is also [format(v, '')], what an f-string field
    without a format spec renders: a string is its own [str], any other
    value goes through [repr]. *)
Definition py_str (v : pyval) : outcome string :=
  match v with
  | PStr s => Ok s
  | _ => py_repr_at v repr_depth
  end.

End Values.

(** [bool(v)]. *)
Definition truthy (v : pyval) : bool :=
  match v with
  | PNone => false
  | PBool b => b
  | PInt z => negb (z =? 0)
  | PFloat f => negb (PrimFloat.eqb f PrimFloat.zero)
  | PStr s => negb (String.eqb s "")
  | PList items => match items with [] => false | _ => true end
  | PDict items => match items with [] => false | _ => true end
  end.

Fixpoint dict_lookup (items : list (string * pyval)) (key : string) : option pyval :=
  match items with
  | [] => None
  | (k, v) :: rest => if String.eqb k key then Some v else dict_lookup rest key
  end.

(** [str.isspace] on one character, over the ASCII range. *)
Definition is_space (c : ascii) : bool :=
  let n := N_of_ascii c in
  (((9 <=? n) && (n <=? 13)) || ((28 <=? n) && (n <=? 32)))%N.

Fixpoint lstrip (s : string) : string :=
  match s with
  | String c rest => if is_space c then lstrip rest else s
  | EmptyString => EmptyString
  end.

Fixpoint rstrip (s : string) : string :=
  match s with
  | EmptyString => EmptyString
  | String c rest =>
      match rstrip rest with
      | EmptyString => if is_space c then EmptyString else String c EmptyString
      | kept => String c kept
      end
  end.

(** [s.strip()]. The template starts and ends with letters, so only the
    ASCII range of [str.isspace] is spelled out. *)
Definition strip (s : string) : string := rstrip (lstrip s).

(** A string [rstrip] leaves alone and that is not empty. *)
Definition settled (s : string) : Prop := rstrip s = s /\ s <> EmptyString.

(** [obj.get(key, default)]: a method of [dict] only. *)
Definition py_get (obj : pyval) (key : string) (default : pyval) : outcome pyval :=
  match obj with
  | PDict items =>
      Ok (match dict_lookup items key with
          | Some v => v
          | None => default
          end)
  | _ => Raise AttributeError
  end.

Section Renderer.
Context {P : Platform}.

(** The f-string of [format_resource_text], its fields already
    formatted. *)
Definition resource_template (instance_type state environment team region : string)
    (public_ip : string) : string :=
  "EC2 Instance Configuration:" ++ nl ++
  "Instance Type: " ++ instance_type ++ nl ++
  "State: " ++ state ++ nl ++
  "Environment: " ++ environment ++ nl ++
  "Team: " ++ team ++ nl ++
  "Region: " ++ region ++ nl ++
  "Public IP: " ++ public_ip.

(** [LocalEmbeddingGenerator.format_resource_text]. Each field is
    evaluated and formatted in turn, left to right; the first [.get] or
    [str()] that raises leaves the f-string. The [except] clause
    returns [str(resource_data)], which is evaluated outside any
    [try]. *)
Definition format_resource_text (resource_data : pyval) : outcome string :=
  Exc.try_except
    (instance_type <- py_get resource_data "instance_type" (PStr "Unknown");;
     instance_type <- py_str instance_type;;
     state <- py_get resource_data "state" (PStr "Unknown");;
     state <- py_str state;;
     environment <- py_get resource_data "environment" (PStr "Unknown");;
     environment <- py_str environment;;
     team <- py_get resource_data "team" (PStr "Unknown");;
     team <- py_str team;;
     region <- py_get resource_data "region" (PStr "Unknown");;
     region <- py_str region;;
     has_public_ip <- py_get resource_data "has_public_ip" PNone;;
     Ok (strip (resource_template instance_type state environment team region
                                  (if truthy has_public_ip then "Yes" else "No"))))%exc
    (fun _ => py_str resource_data).

(** The text the loop hands to the model for a payload. *)
Definition text_of (resource_data : pyval) : string :=
  match format_resource_text resource_data with
  | Ok text => text
  | Raise _ => ""
  end.

End Renderer.

(* ================================================================= *)
(** ** The table and the statements sent to it *)

(** One row of [resource_embeddings].

    Modelled from the spec: the table's definition is not part of the
    script. The columns are those the statements name; [id] is the
    primary key, assigned by the storage from a counter; the pair
    [(resource_type, resource_id)] carries the unique constraint the
    [ON CONFLICT] clause names; [embedding] is nullable. *)
Record row : Type := mk_row {
  col_id : Z;
  col_resource_type : string;
  col_resource_id : string;
  col_resource_data : pyval;
  col_embedding : option vector
}.

(** The rows of the table, in the order the storage keeps them. SQL
    fixes no such order; it shows only where a statement leaves the
    order to the server, and the theorems on the rows of a table are
    stated through [In], [Permutation] and counts wherever the claim is
    about which rows the table holds. *)
Definition table := list row.

Definition set_embedding (v : option vector) (r : row) : row :=
  mk_row (col_id r) (col_resource_type r) (col_resource_id r)
         (col_resource_data r) v.

(** The statements of the script, parameters bound. *)
Inductive statement : Type :=
| SelectResources
| UpdateEmbedding (embedding_vector : vector) (resource_id : Z)
| InsertSample (resource_type resource_id : string) (resource_data : pyval)
| SelectCounts
| SelectSample.

(** One fetched tuple, by the statement that produced it. *)
Inductive record : Type :=
| ResourceRecord (id : Z) (resource_type resource_id : string) (resource_data : pyval)
| CountsRecord (total_resources resources_with_embeddings non_null_embeddings : nat)
| SampleRecord (resource_type resource_id : string) (sample_vector : vector).

(** [ORDER BY id]: ascending, rows with equal keys kept in table order. *)
Fixpoint insert_by_id (r : row) (sorted : table) : table :=
  match sorted with
  | [] => [r]
  | x :: rest =>
      if col_id r <=? col_id x then r :: sorted else x :: insert_by_id r rest
  end.

Definition order_by_id (t : table) : table := fold_right insert_by_id [] t.

Definition resource_record (r : row) : record :=
  ResourceRecord (col_id r) (col_resource_type r) (col_resource_id r)
                 (col_resource_data r).

(** [SELECT id, resource_type, resource_id, resource_data
     FROM resource_embeddings ORDER BY id]. *)
Definition select_resources (t : table) : list record :=
  map resource_record (order_by_id t).

(** [UPDATE resource_embeddings SET embedding = v WHERE id = i]: every
    row whose [id] is [i] gets [v], every other row is left as it is. *)
Definition update_embedding (v : vector) (i : Z) (t : table) : table :=
  map (fun r => if col_id r =? i then set_embedding (Some v) r else r) t.

Definition same_key (resource_type resource_id : string) (r : row) : bool :=
  String.eqb (col_resource_type r) resource_type
  && String.eqb (col_resource_id r) resource_id.

(** [INSERT ... VALUES (rt, rid, data, NULL)
     ON CONFLICT (resource_type, resource_id) DO NOTHING], the new row
    taking [fresh] as its id. *)
Definition insert_sample (fresh : Z) (resource_type resource_id : string)
    (resource_data : pyval) (t : table) : table :=
  if existsb (same_key resource_type resource_id) t then t
  else (t ++ [mk_row fresh resource_type resource_id resource_data None])%list.

(** The aggregate [COUNT(expr)]: the input rows whose [expr] is not
    null, counted one by one. *)
Definition sql_count {A} (expr : row -> option A) (t : table) : nat :=
  fold_left (fun n r => match expr r with Some _ => S n | None => n end) t 0%nat.

(** [COUNT( * )]. *)
Definition sql_count_star (t : table) : nat := List.length t.

(** [COUNT( * ) FILTER (WHERE cond)]: only the rows passing [cond] reach
    the aggregate. *)
Definition sql_count_star_filter (cond : row -> bool) (t : table) : nat :=
  sql_count_star (filter cond t).

Definition is_not_null {A} (x : option A) : bool :=
  match x with Some _ => true | None => false end.

(** The first query of [verify_embeddings]. *)
Definition select_counts (t : table) : record :=
  CountsRecord (sql_count_star t)
               (sql_count col_embedding t)
               (sql_count_star_filter (fun r => is_not_null (col_embedding r)) t).

(** The second query of [verify_embeddings]:
    [WHERE embedding IS NOT NULL LIMIT 1]. Which embedded row the server
    returns is not fixed by the statement; the first one in storage
    order stands for it, and nothing below depends on the choice beyond
    there being a row exactly when some row is embedded. *)
Definition select_sample (t : table) : list record :=
  firstn 1
    (flat_map (fun r => match col_embedding r with
                        | Some v => [SampleRecord (col_resource_type r)
                                                  (col_resource_id r) v]
                        | None => []
                        end) t).

(* ================================================================= *)
(** ** The process, the connection and the cursor *)

Inductive event : Type :=
| EvConnect
| EvExecute (s : statement)
| EvEncode (text : string)
| EvCommit
| EvRollback
| EvClose.

(** What the local name [conn] of [update_embeddings] refers to. *)
Inductive conn_state : Type :=
| ConnNone
| ConnOpen
| ConnClosed.

Record world : Type := mk_world {
  (** The committed table. *)
  durable : table;
  (** The table as the open transaction sees it. *)
  session : table;
  (** The counter ids are drawn from; not transactional. *)
  next_id : Z;
  (** The cursor's result set; [None] after a statement that returns
      no rows. *)
  result_set : option (list record);
  conn : conn_state;
  (** Whether the server accepts the connection. *)
  reachable : bool;
  (** What the process did to the database and the model, oldest
      first. *)
  trace : list event
}.

Definition M (A : Type) : Type := world -> outcome A * world.

Module IO.

Definition ret {A} (a : A) : M A := fun w => (Ok a, w).

Definition bind {A B} (m : M A) (k : A -> M B) : M B :=
  fun w =>
    match m w with
    | (Ok a, w') => k a w'
    | (Raise e, w') => (Raise e, w')
    end.

Definition raise {A} (e : exn) : M A := fun w => (Raise e, w).

Definition lift {A} (r : outcome A) : M A := fun w => (r, w).

(** [try: body / except Exception as e: handler e]. *)
Definition try_except {A} (body : M A) (handler : exn -> M A) : M A :=
  fun w =>
    match body w with
    | (Ok a, w') => (Ok a, w')
    | (Raise e, w') => if is_Exception e then handler e w' else (Raise e, w')
    end.

(** [try: body / finally: cleanup]: an exception of [cleanup] replaces
    the result of [body]. *)
Definition try_finally {A} (body : M A) (cleanup : M unit) : M A :=
  fun w =>
    match body w with
    | (r, w') =>
        match cleanup w' with
        | (Ok _, w'') => (r, w'')
        | (Raise e, w'') => (Raise e, w'')
        end
    end.

End IO.

Declare Scope io_scope.
Delimit Scope io_scope with io.
Notation "x <- m ;; k" := (IO.bind m (fun x => k))
  (at level 100, m at next level, right associativity) : io_scope.
Notation "m ;;; k" := (IO.bind m (fun _ => k))
  (at level 100, right associativity) : io_scope.

Fixpoint for_each {A} (xs : list A) (body : A -> M unit) : M unit :=
  match xs with
  | [] => IO.ret tt
  | x :: rest => (body x ;;; for_each rest body)%io
  end.

Definition record_event (ev : event) (w : world) : world :=
  mk_world (durable w) (session w) (next_id w) (result_set w) (conn w)
           (reachable w) (trace w ++ [ev])%list.

Definition with_session (t : table) (rs : option (list record)) (w : world) : world :=
  mk_world (durable w) t (next_id w) rs (conn w) (reachable w) (trace w).

(** The keyword arguments of [psycopg2.connect]. *)
Record db_config : Type := mk_db_config {
  host : string;
  database : string;
  user : string;
  password : string;
  port : string
}.

(** [psycopg2.connect( **db_config )] followed by [conn.cursor()]. The
    new transaction starts from the committed table. *)
Definition connect (config : db_config) : M unit :=
  fun w =>
    if reachable w then
      (Ok tt, record_event EvConnect
                (mk_world (durable w) (durable w) (next_id w) None ConnOpen
                          (reachable w) (trace w)))
    else (Raise OperationalError, w).

(** [cursor.execute(...)].

    The driver is modelled up to the connection: [connect] fails when
    the server is unreachable; once connected, the statements of the
    script, [commit], [rollback] and [close] go through, and what is
    fetched is already decoded. A server, network or decoding fault
    after connecting is not part of the model, so what is proved of a
    run that returns assumes none occurs. *)
Definition execute (s : statement) : M unit :=
  fun w =>
    let w' :=
      match s with
      | SelectResources =>
          with_session (session w) (Some (select_resources (session w))) w
      | UpdateEmbedding v i =>
          with_session (update_embedding v i (session w)) None w
      | InsertSample rt rid data =>
          mk_world (durable w)
                   (insert_sample (next_id w) rt rid data (session w))
                   (next_id w + 1) None (conn w) (reachable w) (trace w)
      | SelectCounts =>
          with_session (session w) (Some [select_counts (session w)]) w
      | SelectSample =>
          with_session (session w) (Some (select_sample (session w))) w
      end in
    (Ok tt, record_event (EvExecute s) w').

(** [cursor.fetchall()]: the rest of the result set; raises when the
    last statement produced none. *)
Definition fetchall : M (list record) :=
  fun w =>
    match result_set w with
    | Some rows => (Ok rows, with_session (session w) (Some []) w)
    | None => (Raise ProgrammingError, w)
    end.

(** [cursor.fetchone()]. *)
Definition fetchone : M (option record) :=
  fun w =>
    match result_set w with
    | Some [] => (Ok None, w)
    | Some (r :: rest) => (Ok (Some r), with_session (session w) (Some rest) w)
    | None => (Raise ProgrammingError, w)
    end.

(** [conn.commit()]. *)
Definition commit : M unit :=
  fun w =>
    (Ok tt, record_event EvCommit
              (mk_world (session w) (session w) (next_id w) (result_set w)
                        (conn w) (reachable w) (trace w))).

(** [conn.rollback()]. *)
Definition rollback : M unit :=
  fun w =>
    (Ok tt, record_event EvRollback
              (mk_world (durable w) (durable w) (next_id w) (result_set w)
                        (conn w) (reachable w) (trace w))).

(** [conn.close()]: work not committed is discarded. *)
Definition close : M unit :=
  fun w =>
    (Ok tt, record_event EvClose
              (mk_world (durable w) (durable w) (next_id w) None ConnClosed
                        (reachable w) (trace w))).

(** [if conn: m]. *)
Definition if_conn (m : M unit) : M unit :=
  fun w =>
    match conn w with
    | ConnNone => (Ok tt, w)
    | _ => m w
    end.

(** [conn = None]. *)
Definition conn_none : M unit :=
  fun w =>
    (Ok tt, mk_world (durable w) (session w) (next_id w) (result_set w)
                     ConnNone (reachable w) (trace w)).

(** The names bound at module level: the imports, [logger], the class
    and [main]. *)
Definition module_globals : list string :=
  ["psycopg2"; "json"; "sys"; "os"; "SentenceTransformer"; "List"; "Dict";
   "Any"; "logging"; "logger"; "LocalEmbeddingGenerator"; "main"].

(** Evaluating a bare name inside a function whose local names are
    [locals]. *)
Definition load_name (locals : list string) (name : string) : M unit :=
  if existsb (String.eqb name) (locals ++ module_globals)%list
  then IO.ret tt
  else IO.raise NameError.

(** [sys.exit(code)]. *)
Definition sys_exit {A} (code : Z) : M A := IO.raise (SystemExit code).

(** The status the interpreter exits with. *)
Definition exit_status (r : outcome unit) : Z :=
  match r with
  | Ok _ => 0
  | Raise (SystemExit code) => code
  | Raise _ => 1
  end.

(* ================================================================= *)
(** ** [LocalEmbeddingGenerator] *)

Section Generator.
Context {P : Platform}.

Record LocalEmbeddingGenerator : Type := mk_generator {
  self_db_config : db_config;
  self_model : option Model
}.

(** [__init__]. *)
Definition init (config : db_config) : LocalEmbeddingGenerator :=
  mk_generator config None.

(** [load_model]: returns [self] with [self.model] assigned. *)
Definition load_model (self : LocalEmbeddingGenerator) : M LocalEmbeddingGenerator :=
  IO.try_except
    (match pretrained "all-MiniLM-L6-v2" with
     | Some m => IO.ret (mk_generator (self_db_config self) (Some m))
     | None => IO.raise ModelError
     end)
    (fun e => IO.raise e).

(** [get_embedding]. *)
Definition get_embedding (self : LocalEmbeddingGenerator) (text : string) : M vector :=
  match self_model self with
  | None => IO.raise RuntimeError
  | Some m =>
      IO.try_except
        (fun w =>
           (match encode m text with
            | Some embedding => Ok embedding
            | None => Raise ModelError
            end, record_event (EvEncode text) w))
        (fun e => IO.raise e)
  end.

Definition sample_resources : list (string * string * pyval) :=
  [("ec2_instance", "i-sample-1",
    PDict [("instance_type", PStr "t3.micro"); ("state", PStr "running");
           ("environment", PStr "production"); ("team", PStr "backend");
           ("region", PStr "us-east-1"); ("has_public_ip", PBool true)]);
   ("ec2_instance", "i-sample-2",
    PDict [("instance_type", PStr "t3.small"); ("state", PStr "running");
           ("environment", PStr "production"); ("team", PStr "data");
           ("region", PStr "us-east-1"); ("has_public_ip", PBool false)]);
   ("ec2_instance", "i-sample-3",
    PDict [("instance_type", PStr "t3.medium"); ("state", PStr "stopped");
           ("environment", PStr "development"); ("team", PStr "frontend");
           ("region", PStr "us-west-2"); ("has_public_ip", PBool true)])].

(** [create_sample_embeddings(cursor)]. The document is sent as
    [json.dumps] text and decoded again by the column; the statement
    carries the document. After the loop the method evaluates the name
    [conn] in order to call its [commit]. *)
Definition create_sample_embeddings : M unit :=
  (for_each sample_resources
     (fun sample =>
        let '(resource_type, resource_id, resource_data) := sample in
        execute (InsertSample resource_type resource_id resource_data)) ;;;
   load_name ["self"; "cursor"; "sample_resources"; "resource_type";
              "resource_id"; "resource_data"] "conn" ;;;
   commit)%io.

(** [verify_embeddings(cursor)]. *)
Definition verify_embeddings : M unit :=
  (execute SelectCounts ;;;
   result <- fetchone ;;
   match result with
   | Some (CountsRecord total with_embeddings non_null) => IO.ret tt
   | Some _ => IO.raise ValueError
   | None => IO.raise TypeError
   end ;;;
   execute SelectSample ;;;
   sample <- fetchone ;;
   IO.ret tt)%io.

(** The body of the [for] loop of [update_embeddings], for one fetched
    tuple. *)
Definition process_resource (self : LocalEmbeddingGenerator) (fetched : record) : M unit :=
  match fetched with
  | ResourceRecord resource_id resource_type resource_id_str resource_data =>
      (text_content <- IO.lift (format_resource_text resource_data) ;;
       embedding_vector <- get_embedding self text_content ;;
       execute (UpdateEmbedding embedding_vector resource_id))%io
  | _ => IO.raise ValueError
  end.

(** [update_embeddings]. *)
Definition update_embeddings (self : LocalEmbeddingGenerator) : M unit :=
  (conn_none ;;;
   IO.try_finally
     (IO.try_except
        (connect (self_db_config self) ;;;
         execute SelectResources ;;;
         resources <- fetchall ;;
         resources <- match resources with
                      | [] => (create_sample_embeddings ;;; fetchall)
                      | _ => IO.ret resources
                      end ;;
         for_each resources (process_resource self) ;;;
         commit ;;;
         verify_embeddings)
        (fun e => if_conn rollback ;;; IO.raise e))
     (if_conn close))%io.

Definition getenv (name default : string) : string :=
  match environ name with
  | Some value => value
  | None => default
  end.

(** The [db_config] of [main]. *)
Definition main_config : db_config :=
  mk_db_config (getenv "POSTGRES_HOST" "localhost")
               (getenv "POSTGRES_DB" "asset_inventory")
               (getenv "POSTGRES_USER" "postgres")
               (getenv "POSTGRES_PASSWORD" "postgres")
               (getenv "POSTGRES_PORT" "5432").

(** [main]. *)
Definition main : M unit :=
  let config := main_config in
  IO.try_except
    (let generator := init config in
     generator <- load_model generator ;;
     update_embeddings generator)%io
    (fun e => sys_exit 1).

End Generator.

(** The process at start: no connection yet, nothing pending. *)
Definition boot (stored : table) (counter : Z) (up : bool) : world :=
  mk_world stored stored counter None ConnNone up [].

(* ================================================================= *)
(** ** Vocabulary of the statements below *)

(** The pair under the unique constraint. *)
Definition row_key (r : row) : string * string :=
  (col_resource_type r, col_resource_id r).

Definition unique_keys (t : table) : Prop := NoDup (map row_key t).

Definition unique_ids (t : table) : Prop := NoDup (map col_id t).

Definition ascending (t : table) : Prop :=
  Sorted (fun a b => col_id a <= col_id b) t.

Definition has_embedding (r : row) : bool := is_not_null (col_embedding r).

(** What a step may change: the transaction's view, the cursor and the
    trace, the latter by events other than a commit. *)
Definition in_transaction (w w' : world) : Prop :=
  durable w' = durable w
  /\ next_id w' = next_id w
  /\ conn w' = conn w
  /\ reachable w' = reachable w
  /\ exists evs, trace w' = (trace w ++ evs)%list /\ ~ In EvCommit evs.

(** A computation that leaves the component [f] of the world as it
    found it, whatever it returns. *)
Definition keeps {A B} (f : world -> B) (m : M A) : Prop :=
  forall w, f (snd (m w)) = f w.

(** A row with its embedding column blanked: the columns the job is
    not meant to write. *)
Definition payload_of (r : row) : row := set_embedding None r.

(** The keys [format_resource_text] reads. *)
Definition template_fields : list string :=
  ["instance_type"; "state"; "environment"; "team"; "region"; "has_public_ip"].

(** The events of the loop: a call of the model, or an update of an
    embedding. *)
Definition loop_event (ev : event) : Prop :=
  match ev with
  | EvEncode _ => True
  | EvExecute (UpdateEmbedding _ _) => True
  | _ => False
  end.


(** The five fields the template shows through [str()]. *)
Definition shown_fields : list string :=
  ["instance_type"; "state"; "environment"; "team"; "region"].

Section Vocabulary.
Context {P : Platform}.

(** The text a field shows: [str()] of its value, or the placeholder
    when the key is missing. *)
Definition shown (value : option pyval) (text : string) : Prop :=
  match value with
  | Some v => py_str v = Ok text
  | None => text = "Unknown"
  end.

(** The f-string over the six values the [.get] calls returned. *)
Definition render_fields (instance_type state environment team region : pyval)
    (has_public_ip : pyval) : outcome string :=
  (instance_type <- py_str instance_type;;
   state <- py_str state;;
   environment <- py_str environment;;
   team <- py_str team;;
   region <- py_str region;;
   Ok (resource_template instance_type state environment team region
                         (if truthy has_public_ip then "Yes" else "No")))%exc.

(** Whether the text of a row can be rendered. *)
Definition renders (r : row) : bool :=
  match format_resource_text (col_resource_data r) with
  | Ok _ => true
  | Raise _ => false
  end.

(** Whether a row gets through the body of the loop: its text renders
    and the model returns a vector for it. *)
Definition encodable (m : Model) (r : row) : bool :=
  match format_resource_text (col_resource_data r) with
  | Ok text => is_not_null (encode m text)
  | Raise _ => false
  end.

Definition vec_of (m : Model) (r : row) : vector :=
  match encode m (text_of (col_resource_data r)) with
  | Some v => v
  | None => []
  end.

(** What the loop does for one row, as events. *)
Definition row_events (m : Model) (r : row) : list event :=
  [EvEncode (text_of (col_resource_data r));
   EvExecute (UpdateEmbedding (vec_of m r) (col_id r))].

(** The table after the updates for [rows], issued in that order. *)
Definition backfill (m : Model) (rows : list row) (t : table) : table :=
  fold_left (fun acc r => update_embedding (vec_of m r) (col_id r) acc) rows t.

(** The table after the inserts for [samples], ids drawn from [fresh]
    on. *)
Fixpoint insert_all (samples : list (string * string * pyval)) (fresh : Z)
    (t : table) : table :=
  match samples with
  | [] => t
  | (rt, rid, data) :: rest =>
      insert_all rest (fresh + 1) (insert_sample fresh rt rid data t)
  end.

Definition insert_events (samples : list (string * string * pyval)) : list event :=
  map (fun sample : string * string * pyval =>
         let '(rt, rid, data) := sample in EvExecute (InsertSample rt rid data))
      samples.

(** The world in which the [for] loop of [update_embeddings] starts:
    connected, the rows selected and fetched. *)
Definition loop_entry (self : LocalEmbeddingGenerator) (w : world) : world :=
  snd ((conn_none ;;; connect (self_db_config self) ;;;
        execute SelectResources ;;; fetchall)%io w).

(** A row with the vector of its own text in the embedding column. *)
Definition embedded (m : Model) (r : row) : row :=
  set_embedding (Some (vec_of m r)) r.

End Vocabulary.

(* ================================================================= *)
(** ** A platform and tables to run the job on *)

(** A stand-in model: one component per text, and no vector for the
    text [bad]. *)
Definition sample_platform : Platform := {|
  float_repr := fun _ => "0.0";
  str_repr := fun s => "'" ++ s ++ "'";
  int_max_str_digits := 4300;
  repr_depth := 400;
  Model := unit;
  pretrained := fun _ => Some tt;
  encode := fun _ text => if String.eqb text "bad" then None else Some [PrimFloat.one];
  environ := fun _ => None
|}.

Definition sample_self : @LocalEmbeddingGenerator sample_platform :=
  mk_generator (mk_db_config "localhost" "asset_inventory" "postgres" "postgres" "5432")
               (Some (tt : @Model sample_platform)).

(** Three rows without embeddings; the text of the second is [bad]. *)
Definition three_rows : table :=
  [mk_row 1 "ec2_instance" "i-1" (PDict [("state", PStr "running")]) None;
   mk_row 2 "ec2_instance" "i-2" (PStr "bad") None;
   mk_row 3 "ec2_instance" "i-3" (PDict [("team", PStr "data")]) None].



(** Lists nested [depth] deep around an empty one. *)
Fixpoint nested (depth : nat) : pyval :=
  match depth with
  | O => PList []
  | S inner => PList [nested inner]
  end.

(** Two rows, stored out of id order, the first already embedded. *)
Definition two_rows : table :=
  [mk_row 7 "ec2_instance" "i-7" (PStr "seven") (Some [PrimFloat.zero]);
   mk_row 4 "ec2_instance" "i-4" (PStr "four") None].

(* ================================================================= *)
(** * Properties *)

(** ** Stripping *)

Lemma settled_append (s t : string) : settled t -> settled (s ++ t).
Proof.
  intros [Hfix Hne]. induction s as [|c s IH]; simpl.
  - split; assumption.
  - destruct IH as [IHfix IHne]. split.
    + simpl. rewrite IHfix. destruct (s ++ t); [now contradiction IHne | reflexivity].
    + discriminate.
Qed.

Lemma settled_yes : settled "Yes".
Proof. split; [reflexivity | discriminate]. Qed.

Lemma settled_no : settled "No".
Proof. split; [reflexivity | discriminate]. Qed.

(** ** Lookup *)

Lemma dict_lookup_in (items : list (string * pyval)) (key : string) (v : pyval) :
  dict_lookup items key = Some v -> In (key, v) items.
Proof.
  induction items as [|[k x] items IH]; cbn; [discriminate |].
  destruct (String.eqb k key) eqn:E.
  - intros H. inversion H; subst. apply String.eqb_eq in E. subst. now left.
  - intros H. right. now apply IH.
Qed.




(** ** Decimal digits *)

(** The digits after the leading one of a power of ten. *)
Fixpoint zeros (n : nat) : Decimal.uint :=
  match n with
  | O => Decimal.Nil
  | S n' => Decimal.D0 (zeros n')
  end.

Lemma of_uint_acc_zeros (n : nat) (acc : positive) :
  Z.pos (Pos.of_uint_acc (zeros n) acc) = 10 ^ Z.of_nat n * Z.pos acc.
Proof.
  revert acc. induction n as [|n IH]; intros acc.
  - cbn [zeros Pos.of_uint_acc]. change (Z.of_nat 0) with 0. lia.
  - cbn [zeros Pos.of_uint_acc]. rewrite IH, Nat2Z.inj_succ, Z.pow_succ_r by lia.
    lia.
Qed.

Lemma string_of_zeros_length (n : nat) :
  String.length (NilEmpty.string_of_uint (zeros n)) = n.
Proof. induction n as [|n IH]; [reflexivity |]. cbn. now rewrite IH. Qed.

(** [10 ** n] is written with [n + 1] digits. *)
Lemma power_of_ten_digits (n : nat) : decimal_digits (10 ^ Z.of_nat n) = S n.
Proof.
  unfold decimal_digits, str_of_int.
  rewrite Z.abs_eq by (apply Z.pow_nonneg; lia).
  assert (Hten : 10 ^ Z.of_nat n = Z.of_int (Decimal.Pos (Decimal.D1 (zeros n)))).
  { cbn [Z.of_int Z.of_uint Pos.of_uint Z.of_N]. rewrite of_uint_acc_zeros. lia. }
  rewrite Hten, DecimalZ.to_of.
  cbn [Decimal.norm Decimal.unorm Decimal.nzhead].
  cbn [NilZero.string_of_int NilZero.string_of_uint NilEmpty.string_of_uint
       String.length].
  now rewrite string_of_zeros_length.
Qed.

(** ** Traversals *)

Lemma traverse_ok_in {A B} (f : A -> outcome B) (l : list A) (ys : list B) (x : A) :
  Exc.traverse f l = Ok ys -> In x l -> exists y, f x = Ok y.
Proof.
  revert ys. induction l as [|a l IH]; intros ys Hrun Hin; [destruct Hin |].
  cbn in Hrun. destruct (f a) as [y|e] eqn:Ha; [| discriminate].
  destruct (Exc.traverse f l) as [ys'|e] eqn:Hl; [| discriminate].
  destruct Hin as [<- | Hin]; [now exists y | now apply (IH ys')].
Qed.

Lemma traverse_raises_in {A B} (f : A -> outcome B) (l : list A) (e : exn) :
  Exc.traverse f l = Raise e -> exists x, In x l /\ f x = Raise e.
Proof.
  induction l as [|a l IH]; cbn; [discriminate |].
  destruct (f a) as [y|e'] eqn:Ha.
  - destruct (Exc.traverse f l) as [ys'|e''] eqn:Hl; [discriminate |].
    intros H. inversion H; subst. destruct (IH eq_refl) as (x & Hin & Hx).
    exists x. split; [now right | exact Hx].
  - intros H. inversion H; subst. exists a. split; [now left | exact Ha].
Qed.

Lemma traverse_ok_ext {A B} (f g : A -> outcome B) (l : list A) (ys : list B) :
  (forall x y, In x l -> f x = Ok y -> g x = Ok y) ->
  Exc.traverse f l = Ok ys -> Exc.traverse g l = Ok ys.
Proof.
  revert ys. induction l as [|a l IH]; intros ys Hext Hrun; [exact Hrun |].
  cbn in *. destruct (f a) as [y|e] eqn:Ha; [| discriminate].
  rewrite (Hext a y (or_introl eq_refl) Ha).
  destruct (Exc.traverse f l) as [ys'|e] eqn:Hl; [| discriminate].
  rewrite (IH ys'); [exact Hrun | | reflexivity].
  intros x y' Hin. apply Hext. now right.
Qed.

Section RendererFacts.
Context {P : Platform}.

(** *** When [str()] raises *)

Lemma py_repr_at_zero (v : pyval) : py_repr_at v 0 = Raise RecursionError.
Proof. destruct v; reflexivity. Qed.

Lemma int_repr_raises (z : Z) (e : exn) : int_repr z = Raise e -> e = ValueError.
Proof.
  unfold int_repr. destruct (_ && _)%bool; intros H; inversion H. reflexivity.
Qed.

Lemma int_repr_over_limit (z : Z) :
  (0 < int_max_str_digits)%nat ->
  (int_max_str_digits < decimal_digits z)%nat ->
  int_repr z = Raise ValueError.
Proof.
  intros Hset Hover. unfold int_repr.
  apply Nat.ltb_lt in Hset. apply Nat.ltb_lt in Hover.
  now rewrite Hset, Hover.
Qed.

(** [repr] raises for one of two reasons only. *)
Lemma py_repr_at_raises (budget : nat) (v : pyval) (e : exn) :
  py_repr_at v budget = Raise e -> e = ValueError \/ e = RecursionError.
Proof.
  revert v. induction budget as [|deeper IH]; intros v.
  - rewrite py_repr_at_zero. intros H. inversion H. now right.
  - destruct v as [| [|] | z | f | s | items | items]; cbn [py_repr_at];
      try discriminate.
    + intros H. left. now apply int_repr_raises in H.
    + unfold Exc.bind.
      destruct (Exc.traverse _ items) as [parts|e'] eqn:Hrun; [discriminate |].
      intros H. inversion H; subst.
      apply traverse_raises_in in Hrun. destruct Hrun as (x & _ & Hx).
      exact (IH x Hx).
    + unfold Exc.bind.
      destruct (Exc.traverse _ items) as [parts|e'] eqn:Hrun; [discriminate |].
      intros H. inversion H; subst.
      apply traverse_raises_in in Hrun. destruct Hrun as ([k x] & _ & Hx).
      unfold Exc.bind in Hx.
      destruct (py_repr_at x deeper) as [shown|e''] eqn:Hrepr; [discriminate |].
      inversion Hx; subst. exact (IH x Hrepr).
Qed.

Lemma py_str_raises (v : pyval) (e : exn) :
  py_str v = Raise e -> e = ValueError \/ e = RecursionError.
Proof.
  destruct v; cbn [py_str]; try apply py_repr_at_raises. discriminate.
Qed.

Lemma py_str_raises_Exception (v : pyval) (e : exn) :
  py_str v = Raise e -> is_Exception e = true.
Proof. intros H. apply py_str_raises in H. destruct H; subst; reflexivity. Qed.

(** More room never hurts: what [repr] returns with some budget it
    returns with a larger one. *)
Lemma py_repr_at_more (budget : nat) (v : pyval) (text : string) :
  py_repr_at v budget = Ok text -> py_repr_at v (S budget) = Ok text.
Proof.
  revert v text. induction budget as [|deeper IH]; intros v text.
  - rewrite py_repr_at_zero. discriminate.
  - destruct v as [| [|] | z | f | s | items | items];
      cbn [py_repr_at]; try (intros H; exact H).
    + match goal with
      | |- Exc.bind (Exc.traverse ?f1 items) _ = _ ->
           Exc.bind (Exc.traverse ?f2 items) _ = _ =>
          destruct (Exc.traverse f1 items) as [parts|e] eqn:Hrun;
          cbn [Exc.bind]; [| discriminate]; intros H;
          rewrite (traverse_ok_ext f1 f2 items parts); [exact H | | exact Hrun]
      end.
      intros x y _ Hx. now apply IH.
    + match goal with
      | |- Exc.bind (Exc.traverse ?f1 items) _ = _ ->
           Exc.bind (Exc.traverse ?f2 items) _ = _ =>
          destruct (Exc.traverse f1 items) as [parts|e] eqn:Hrun;
          cbn [Exc.bind]; [| discriminate]; intros H;
          rewrite (traverse_ok_ext f1 f2 items parts); [exact H | | exact Hrun]
      end.
      intros [k x] y _.
      destruct (py_repr_at x deeper) as [shown|e] eqn:Hrepr; cbn [Exc.bind];
        [| discriminate].
      intros Hy. now rewrite (IH x shown Hrepr).
Qed.

(** When [str()] of a mapping returns, so does [str()] of each of its
    values. *)
Lemma py_str_mapping_values (items : list (string * pyval)) (dump : string)
    (key : string) (v : pyval) :
  py_str (PDict items) = Ok dump -> In (key, v) items ->
  exists text, py_str v = Ok text.
Proof.
  cbn [py_str]. destruct repr_depth as [|deeper] eqn:Hdepth; [discriminate |].
  cbn [py_repr_at]. unfold Exc.bind.
  destruct (Exc.traverse _ items) as [parts|e] eqn:Hrun; [| discriminate].
  intros _ Hin.
  destruct (traverse_ok_in _ _ _ _ Hrun Hin) as (y & Hy).
  cbn in Hy. unfold Exc.bind in Hy.
  destruct (py_repr_at v deeper) as [text|e] eqn:Hrepr; [| discriminate].
  destruct v; cbn [py_str]; try rewrite Hdepth;
    try (exists text; now apply py_repr_at_more).
  eexists. reflexivity.
Qed.

(** *** The template *)

(** The template begins with a letter and ends in [Yes] or [No]:
    [strip] has nothing to remove. *)
Lemma strip_resource_template (a b c d e : string) (flag : bool) :
  strip (resource_template a b c d e (if flag then "Yes" else "No"))
  = resource_template a b c d e (if flag then "Yes" else "No").
Proof.
  unfold strip.
  assert (Hl : lstrip (resource_template a b c d e (if flag then "Yes" else "No"))
               = resource_template a b c d e (if flag then "Yes" else "No"))
    by reflexivity.
  rewrite Hl. unfold resource_template.
  assert (Hflag : settled (if flag then "Yes" else "No")).
  { destruct flag; [apply settled_yes | apply settled_no]. }
  repeat apply settled_append. exact Hflag.
Qed.

(** On a mapping every [.get] returns; what is left of the method is
    the formatting of the six values and the [except] clause. *)
Lemma format_resource_text_mapping (items : list (string * pyval)) :
  let field key default :=
    match dict_lookup items key with Some v => v | None => default end in
  format_resource_text (PDict items)
  = Exc.try_except
      (render_fields (field "instance_type" (PStr "Unknown"))
                     (field "state" (PStr "Unknown"))
                     (field "environment" (PStr "Unknown"))
                     (field "team" (PStr "Unknown"))
                     (field "region" (PStr "Unknown"))
                     (field "has_public_ip" PNone))
      (fun _ => py_str (PDict items)).
Proof.
  intros field. unfold format_resource_text, render_fields.
  cbn [py_get Exc.bind]. fold (field "instance_type" (PStr "Unknown")).
  fold (field "state" (PStr "Unknown")). fold (field "environment" (PStr "Unknown")).
  fold (field "team" (PStr "Unknown")). fold (field "region" (PStr "Unknown")).
  fold (field "has_public_ip" PNone).
  destruct (py_str (field "instance_type" (PStr "Unknown"))); [| reflexivity].
  destruct (py_str (field "state" (PStr "Unknown"))); [| reflexivity].
  destruct (py_str (field "environment" (PStr "Unknown"))); [| reflexivity].
  destruct (py_str (field "team" (PStr "Unknown"))); [| reflexivity].
  destruct (py_str (field "region" (PStr "Unknown"))); [| reflexivity].
  cbn [Exc.bind]. now rewrite strip_resource_template.
Qed.

Lemma render_fields_raises (a b c d e f : pyval) (err : exn) :
  render_fields a b c d e f = Raise err -> is_Exception err = true.
Proof.
  unfold render_fields, Exc.bind.
  destruct (py_str a) eqn:Ha; [| intros H; inversion H; subst;
                                 now apply py_str_raises_Exception in Ha].
  destruct (py_str b) eqn:Hb; [| intros H; inversion H; subst;
                                 now apply py_str_raises_Exception in Hb].
  destruct (py_str c) eqn:Hc; [| intros H; inversion H; subst;
                                 now apply py_str_raises_Exception in Hc].
  destruct (py_str d) eqn:Hd; [| intros H; inversion H; subst;
                                 now apply py_str_raises_Exception in Hd].
  destruct (py_str e) eqn:He; [| intros H; inversion H; subst;
                                 now apply py_str_raises_Exception in He].
  discriminate.
Qed.

(** A mapping all of whose shown values have a [str()] is rendered. *)
Lemma render_fields_ok (a b c d e f : pyval) :
  (exists s, py_str a = Ok s) -> (exists s, py_str b = Ok s) ->
  (exists s, py_str c = Ok s) -> (exists s, py_str d = Ok s) ->
  (exists s, py_str e = Ok s) ->
  exists text, render_fields a b c d e f = Ok text.
Proof.
  intros [sa Ha] [sb Hb] [sc Hc] [sd Hd] [se He].
  unfold render_fields. rewrite Ha, Hb, Hc, Hd, He. cbn. eexists. reflexivity.
Qed.

Lemma field_has_str (items : list (string * pyval)) (key : string) :
  (forall value, In (key, value) items -> exists text, py_str value = Ok text) ->
  exists text,
    py_str (match dict_lookup items key with
            | Some v => v
            | None => PStr "Unknown"
            end) = Ok text.
Proof.
  intros Hfield. destruct (dict_lookup items key) as [v|] eqn:E.
  - apply Hfield. now apply dict_lookup_in.
  - eexists. reflexivity.
Qed.

Lemma format_resource_text_mapping_ok (items : list (string * pyval)) :
  (forall key value, In key shown_fields -> In (key, value) items ->
                     exists text, py_str value = Ok text) ->
  exists text, format_resource_text (PDict items) = Ok text.
Proof.
  intros Hfields. rewrite format_resource_text_mapping. cbv zeta.
  destruct (render_fields_ok
              (match dict_lookup items "instance_type" with
               | Some v => v | None => PStr "Unknown" end)
              (match dict_lookup items "state" with
               | Some v => v | None => PStr "Unknown" end)
              (match dict_lookup items "environment" with
               | Some v => v | None => PStr "Unknown" end)
              (match dict_lookup items "team" with
               | Some v => v | None => PStr "Unknown" end)
              (match dict_lookup items "region" with
               | Some v => v | None => PStr "Unknown" end)
              (match dict_lookup items "has_public_ip" with
               | Some v => v | None => PNone end)) as [text Htext];
    try (apply field_has_str; intros value; apply Hfields; cbn; tauto).
  rewrite Htext. exists text. reflexivity.
Qed.

(** On a value that is not a mapping the first [.get] raises
    [AttributeError] and the method is the [except] clause. *)
Lemma format_resource_text_other (resource_data : pyval) :
  match resource_data with
  | PDict _ => True
  | _ => format_resource_text resource_data = py_str resource_data
  end.
Proof. destruct resource_data; first [exact I | reflexivity]. Qed.

(** What the method raises, [str(resource_data)] raised. *)
Lemma format_resource_text_raises (resource_data : pyval) (e : exn) :
  format_resource_text resource_data = Raise e -> py_str resource_data = Raise e.
Proof.
  destruct resource_data as [| b | z | f | s | items | items];
    try (intros H; exact H).
  rewrite format_resource_text_mapping. cbv zeta. unfold Exc.try_except.
  destruct (render_fields _ _ _ _ _ _) as [text|err] eqn:Hbody; [discriminate |].
  rewrite (render_fields_raises _ _ _ _ _ _ _ Hbody). intros H. exact H.
Qed.

Lemma format_resource_text_raises_Exception (resource_data : pyval) (e : exn) :
  format_resource_text resource_data = Raise e -> is_Exception e = true.
Proof.
  intros H. apply format_resource_text_raises in H.
  now apply py_str_raises_Exception in H.
Qed.

Lemma format_resource_text_when_str (resource_data : pyval) (dump : string) :
  py_str resource_data = Ok dump ->
  exists text, format_resource_text resource_data = Ok text.
Proof.
  intros Hstr. destruct resource_data as [| b | z | f | s | items | items];
    try (exists dump; exact Hstr).
  apply format_resource_text_mapping_ok. intros key value _ Hin.
  exact (py_str_mapping_values items dump key value Hstr Hin).
Qed.

(** A mapping that has a [str()] has one for each field the template
    shows. *)
Lemma render_fields_when_str (items : list (string * pyval)) (dump : string) :
  let field key default :=
    match dict_lookup items key with Some v => v | None => default end in
  py_str (PDict items) = Ok dump ->
  exists text,
    render_fields (field "instance_type" (PStr "Unknown"))
                  (field "state" (PStr "Unknown"))
                  (field "environment" (PStr "Unknown"))
                  (field "team" (PStr "Unknown"))
                  (field "region" (PStr "Unknown"))
                  (field "has_public_ip" PNone) = Ok text.
Proof.
  intros field Hstr. subst field.
  apply render_fields_ok; apply field_has_str; intros value Hin;
    exact (py_str_mapping_values items dump _ value Hstr Hin).
Qed.


(** C5, as the code has it. [format_resource_text] returns a string
    whenever [str(resource_data)] does not raise; a mapping is rendered
    whatever fields it lacks, as long as the fields it has can be
    shown; on a value that is not a mapping the method is
    [str(resource_data)], text or exception; and whatever the method
    raises is what [str(resource_data)] raised in the [except] clause,
    a [ValueError] or a [RecursionError]. *)
Theorem format_resource_text_total (resource_data : pyval) :
  (forall dump, py_str resource_data = Ok dump ->
                exists text, format_resource_text resource_data = Ok text)
  /\ match resource_data with
     | PDict items =>
         (forall key value, In key shown_fields -> In (key, value) items ->
                            exists text, py_str value = Ok text) ->
         exists text, format_resource_text resource_data = Ok text
     | _ => format_resource_text resource_data = py_str resource_data
     end
  /\ forall e, format_resource_text resource_data = Raise e ->
               py_str resource_data = Raise e
               /\ (e = ValueError \/ e = RecursionError).
Proof.
  split; [| split].
  - intros dump. apply format_resource_text_when_str.
  - destruct resource_data as [| b | z | f | s | items | items]; try reflexivity.
    apply format_resource_text_mapping_ok.
  - intros e H. apply format_resource_text_raises in H.
    split; [exact H | now apply py_str_raises in H].
Qed.

Lemma text_of_rendered (resource_data : pyval) (text : string) :
  format_resource_text resource_data = Ok text -> text_of resource_data = text.
Proof. intros H. unfold text_of. now rewrite H. Qed.

End RendererFacts.

(** ** The table *)

Lemma insert_by_id_perm (r : row) (t : table) :
  Permutation (insert_by_id r t) (r :: t).
Proof.
  induction t as [|x t IH]; simpl.
  - apply Permutation_refl.
  - destruct (col_id r <=? col_id x).
    + apply Permutation_refl.
    + eapply Permutation_trans; [apply perm_skip, IH | apply perm_swap].
Qed.

Lemma order_by_id_perm (t : table) : Permutation (order_by_id t) t.
Proof.
  induction t as [|r t IH]; simpl.
  - apply perm_nil.
  - eapply Permutation_trans; [apply insert_by_id_perm | apply perm_skip, IH].
Qed.

Lemma insert_by_id_ascending (r : row) (t : table) :
  ascending t -> ascending (insert_by_id r t).
Proof.
  unfold ascending. induction t as [|x t IH]; simpl; intros Hs.
  - repeat constructor.
  - destruct (col_id r <=? col_id x) eqn:E.
    + constructor; [assumption | constructor; lia].
    + inversion Hs as [|? ? Hs' Hhd]; subst.
      constructor; [apply IH, Hs' |].
      destruct t as [|y t]; simpl.
      * constructor. lia.
      * destruct (col_id r <=? col_id y); constructor; [lia |].
        inversion Hhd; subst. assumption.
Qed.

Lemma order_by_id_ascending (t : table) : ascending (order_by_id t).
Proof.
  induction t as [|r t IH]; simpl.
  - constructor.
  - apply insert_by_id_ascending, IH.
Qed.

Lemma order_by_id_nonempty (t : table) : t <> [] -> order_by_id t <> [].
Proof.
  intros Hne Hnil. apply Hne.
  apply Permutation_nil. rewrite <- Hnil. apply order_by_id_perm.
Qed.

Lemma sql_count_from {A} (expr : row -> option A) (t : table) (n : nat) :
  fold_left (fun n r => match expr r with Some _ => S n | None => n end) t n
  = (n + List.length (filter (fun r => is_not_null (expr r)) t))%nat.
Proof.
  revert n. induction t as [|r t IH]; intros n; simpl.
  - lia.
  - rewrite IH. destruct (expr r); simpl; lia.
Qed.

Lemma sql_count_filter {A} (expr : row -> option A) (t : table) :
  sql_count expr t = sql_count_star_filter (fun r => is_not_null (expr r)) t.
Proof.
  unfold sql_count, sql_count_star_filter, sql_count_star.
  now rewrite sql_count_from.
Qed.

(** C7. The row the verification query returns has equal second and
    third columns, [COUNT(embedding)] and
    [COUNT( * ) FILTER (WHERE embedding IS NOT NULL)], whatever the
    table holds when [verify_embeddings] sends the query. *)
Theorem verify_counts_agree (w : world) :
  exists (total n : nat) (w' : world),
    (execute SelectCounts ;;; fetchone)%io w
    = (Ok (Some (CountsRecord total n n)), w').
Proof.
  exists (sql_count_star (session w)), (sql_count col_embedding (session w)).
  eexists. unfold IO.bind, execute, fetchone. cbn.
  unfold select_counts. now rewrite <- sql_count_filter.
Qed.

(** *** The conflict clause *)

Lemma insert_sample_present (fresh : Z) (rt rid : string) (data : pyval) (t : table) :
  existsb (same_key rt rid) (insert_sample fresh rt rid data t) = true.
Proof.
  unfold insert_sample. destruct (existsb (same_key rt rid) t) eqn:E.
  - exact E.
  - rewrite existsb_app, E. cbn. unfold same_key. cbn.
    now rewrite !String.eqb_refl.
Qed.

Lemma insert_sample_keeps (fresh : Z) (rt rid rt' rid' : string) (data : pyval)
    (t : table) :
  existsb (same_key rt rid) t = true ->
  existsb (same_key rt rid) (insert_sample fresh rt' rid' data t) = true.
Proof.
  intros H. unfold insert_sample. destruct (existsb (same_key rt' rid') t).
  - exact H.
  - now rewrite existsb_app, H.
Qed.

Lemma insert_sample_conflict (fresh : Z) (rt rid : string) (data : pyval) (t : table) :
  existsb (same_key rt rid) t = true -> insert_sample fresh rt rid data t = t.
Proof. intros H. unfold insert_sample. now rewrite H. Qed.

Lemma same_key_absent (rt rid : string) (t : table) :
  existsb (same_key rt rid) t = false -> ~ In (rt, rid) (map row_key t).
Proof.
  induction t as [|r t IH]; simpl; intros H.
  - tauto.
  - apply orb_false_iff in H. destruct H as [Hr Ht].
    intros [Heq | Hin]; [| now apply IH].
    unfold row_key in Heq. inversion Heq; subst.
    unfold same_key in Hr. now rewrite !String.eqb_refl in Hr.
Qed.

Lemma insert_sample_unique (fresh : Z) (rt rid : string) (data : pyval) (t : table) :
  unique_keys t -> unique_keys (insert_sample fresh rt rid data t).
Proof.
  unfold unique_keys, insert_sample. intros H.
  destruct (existsb (same_key rt rid) t) eqn:E; [exact H |].
  rewrite map_app. cbn.
  apply NoDup_rev in H. rewrite <- (rev_involutive (_ ++ _)).
  apply NoDup_rev. rewrite rev_app_distr. cbn.
  constructor; [| exact H].
  rewrite <- in_rev. now apply same_key_absent.
Qed.

(** ** Seeding *)

Ltac run_step :=
  unfold IO.bind, IO.ret, IO.raise, IO.lift; cbn.

Lemma for_each_inserts (samples : list (string * string * pyval)) (w : world) :
  exists w',
    for_each samples
      (fun sample => let '(rt, rid, data) := sample in
                     execute (InsertSample rt rid data)) w = (Ok tt, w')
    /\ durable w' = durable w
    /\ session w' = insert_all samples (next_id w) (session w)
    /\ next_id w' = next_id w + Z.of_nat (List.length samples)
    /\ conn w' = conn w
    /\ reachable w' = reachable w
    /\ trace w' = (trace w ++ insert_events samples)%list.
Proof.
  revert w. induction samples as [|[[rt rid] data] rest IH]; intros w.
  - exists w. cbn. rewrite app_nil_r, Z.add_0_r. repeat split.
  - cbn [for_each]. unfold IO.bind at 1. cbn [execute].
    match goal with
    | |- context [for_each rest ?f ?w1] =>
        destruct (IH w1) as (w' & Hrun & Hd & Hs & Hn & Hc & Hr & Ht)
    end.
    exists w'. rewrite Hrun, Hd, Hs, Hn, Hc, Hr, Ht. cbn.
    rewrite <- app_assoc. repeat split. lia.
Qed.

Lemma create_sample_embeddings_run (w : world) :
  exists w',
    create_sample_embeddings w = (Raise NameError, w')
    /\ durable w' = durable w
    /\ session w' = insert_all sample_resources (next_id w) (session w)
    /\ conn w' = conn w
    /\ reachable w' = reachable w
    /\ trace w' = (trace w ++ insert_events sample_resources)%list.
Proof.
  destruct (for_each_inserts sample_resources w)
    as (w' & Hrun & Hd & Hs & Hn & Hc & Hr & Ht).
  exists w'. unfold create_sample_embeddings, IO.bind. rewrite Hrun.
  cbn. repeat split; assumption.
Qed.

Lemma insert_all_unique (samples : list (string * string * pyval)) (fresh : Z)
    (t : table) :
  unique_keys t -> unique_keys (insert_all samples fresh t).
Proof.
  revert fresh t. induction samples as [|[[rt rid] data] rest IH]; intros fresh t H.
  - exact H.
  - cbn. apply IH. now apply insert_sample_unique.
Qed.

Lemma insert_all_keeps (samples : list (string * string * pyval)) (fresh : Z)
    (rt rid : string) (t : table) :
  existsb (same_key rt rid) t = true ->
  existsb (same_key rt rid) (insert_all samples fresh t) = true.
Proof.
  revert fresh t. induction samples as [|[[rt' rid'] data] rest IH]; intros fresh t H.
  - exact H.
  - cbn. apply IH. now apply insert_sample_keeps.
Qed.

(** Once every key of [samples] is in the table, inserting them again
    changes nothing. *)
Lemma insert_all_conflict (samples : list (string * string * pyval)) (fresh : Z)
    (t : table) :
  (forall rt rid data, In (rt, rid, data) samples ->
                       existsb (same_key rt rid) t = true) ->
  insert_all samples fresh t = t.
Proof.
  revert fresh. induction samples as [|[[rt rid] data] rest IH]; intros fresh H.
  - reflexivity.
  - cbn. rewrite insert_sample_conflict by (eapply H; left; reflexivity).
    apply IH. intros rt' rid' data' Hin. eapply H. right. exact Hin.
Qed.

Lemma insert_all_present (samples : list (string * string * pyval)) (fresh : Z)
    (t : table) (rt rid : string) (data : pyval) :
  In (rt, rid, data) samples ->
  existsb (same_key rt rid) (insert_all samples fresh t) = true.
Proof.
  revert fresh t. induction samples as [|[[rt' rid'] data'] rest IH];
    intros fresh t Hin.
  - destruct Hin.
  - cbn. destruct Hin as [Heq | Hin].
    + inversion Heq; subst. apply insert_all_keeps, insert_sample_present.
    + now apply IH.
Qed.

(** C6. Seeding twice leaves the table as seeding once does: the second
    call meets a conflict on each sample and inserts nothing; and a
    table that satisfies the unique constraint on
    [(resource_type, resource_id)] still satisfies it after one call and
    after two. Each call ends in [NameError] after its inserts, which is
    C10's matter. *)
Theorem seeding_idempotent (w : world) (Hunique : unique_keys (session w)) :
  let once := snd (create_sample_embeddings w) in
  let twice := snd (create_sample_embeddings once) in
  session twice = session once
  /\ unique_keys (session once)
  /\ unique_keys (session twice).
Proof.
  intros once twice.
  destruct (create_sample_embeddings_run w) as (w1 & Hrun1 & _ & Hs1 & _).
  destruct (create_sample_embeddings_run w1) as (w2 & Hrun2 & _ & Hs2 & _).
  assert (Honce : once = w1) by (subst once; now rewrite Hrun1).
  assert (Htwice : twice = w2) by (subst twice; now rewrite Honce, Hrun2).
  rewrite Honce, Htwice.
  assert (Hsame : session w2 = session w1).
  { rewrite Hs2. apply insert_all_conflict. intros rt rid data Hin.
    rewrite Hs1. eapply insert_all_present. exact Hin. }
  assert (Hu1 : unique_keys (session w1)).
  { rewrite Hs1. now apply insert_all_unique. }
  repeat split; [exact Hsame | exact Hu1 | now rewrite Hsame].
Qed.

(** ** The loop *)

Lemma in_transaction_refl (w : world) : in_transaction w w.
Proof.
  repeat split. exists []. split; [now rewrite app_nil_r | intros []].
Qed.

Lemma in_transaction_trans (w1 w2 w3 : world) :
  in_transaction w1 w2 -> in_transaction w2 w3 -> in_transaction w1 w3.
Proof.
  intros (Hd & Hn & Hc & Hr & evs & Ht & Hno) (Hd' & Hn' & Hc' & Hr' & evs' & Ht' & Hno').
  repeat split; try congruence.
  exists (evs ++ evs')%list. split.
  - rewrite Ht', Ht. now rewrite app_assoc.
  - intros Hin. apply in_app_or in Hin. tauto.
Qed.

Lemma in_transaction_event (ev : event) (w : world) :
  ev <> EvCommit -> in_transaction w (record_event ev w).
Proof.
  intros Hev. repeat split. exists [ev]. split; [reflexivity |].
  intros [Heq | []]. now apply Hev.
Qed.

Section Loop.
Context {P : Platform}.
Variable self : LocalEmbeddingGenerator.

Lemma process_resource_in_transaction (fetched : record) (w w' : world)
    (r : outcome unit) :
  process_resource self fetched w = (r, w') ->
  in_transaction w w' /\ (forall e, r = Raise e -> is_Exception e = true).
Proof.
  unfold process_resource. destruct fetched as [i rt rid data | |].
  - destruct (format_resource_text data) as [text|err] eqn:Hfmt.
    + unfold get_embedding. destruct (self_model self) as [m|].
      * run_step. unfold IO.try_except. cbn.
        destruct (encode m text) as [v|]; cbn; intros H; inversion H; subst.
        -- split; [| discriminate].
           apply in_transaction_trans with (w2 := record_event (EvEncode text) w);
             [apply in_transaction_event; discriminate |].
           repeat split. exists [EvExecute (UpdateEmbedding v i)].
           split; [reflexivity |]. intros [Heq | []]. discriminate.
        -- split; [apply in_transaction_event; discriminate |].
           intros e He. inversion He. reflexivity.
      * run_step. intros H; inversion H; subst.
        split; [apply in_transaction_refl |]. intros e He. inversion He. reflexivity.
    + run_step. intros H; inversion H; subst.
      split; [apply in_transaction_refl |]. intros e He. inversion He; subst.
      exact (format_resource_text_raises_Exception _ _ Hfmt).
  - run_step. intros H; inversion H; subst.
    split; [apply in_transaction_refl |]. intros e He. inversion He. reflexivity.
  - run_step. intros H; inversion H; subst.
    split; [apply in_transaction_refl |]. intros e He. inversion He. reflexivity.
Qed.

(** The loop never commits, and what it raises is an [Exception]. *)
Lemma loop_in_transaction (fetched : list record) (w w' : world) (r : outcome unit) :
  for_each fetched (process_resource self) w = (r, w') ->
  in_transaction w w' /\ (forall e, r = Raise e -> is_Exception e = true).
Proof.
  revert w. induction fetched as [|x rest IH]; intros w; cbn [for_each].
  - run_step. intros H; inversion H; subst.
    split; [apply in_transaction_refl | discriminate].
  - unfold IO.bind at 1.
    destruct (process_resource self x w) as [[[]|e] w1] eqn:Hstep;
      apply process_resource_in_transaction in Hstep; destruct Hstep as [Htx Hexn].
    + intros Hrest. apply IH in Hrest. destruct Hrest as [Htx' Hexn'].
      split; [eapply in_transaction_trans; eassumption | exact Hexn'].
    + intros H; inversion H; subst. split; [exact Htx | exact Hexn].
Qed.

(** A row whose text cannot be rendered ends the loop before the model
    is asked. *)
Lemma process_resource_unrendered (r : row) (w : world) :
  renders r = false ->
  exists e, process_resource self (resource_record r) w = (Raise e, w).
Proof.
  unfold renders, process_resource, resource_record.
  destruct (format_resource_text (col_resource_data r)) as [text|e]; [discriminate |].
  intros _. exists e. reflexivity.
Qed.

Variable m : Model.
Hypothesis Hmodel : self_model self = Some m.

Lemma encodable_renders (r : row) : encodable m r = true -> renders r = true.
Proof.
  unfold encodable, renders.
  destruct (format_resource_text (col_resource_data r)); [reflexivity | discriminate].
Qed.

Lemma process_resource_ok (r : row) (w : world) :
  encodable m r = true ->
  process_resource self (resource_record r) w
  = (Ok tt,
     record_event (EvExecute (UpdateEmbedding (vec_of m r) (col_id r)))
       (with_session (update_embedding (vec_of m r) (col_id r) (session w)) None
          (record_event (EvEncode (text_of (col_resource_data r))) w))).
Proof.
  unfold encodable, vec_of, process_resource, resource_record.
  destruct (format_resource_text (col_resource_data r)) as [text|e] eqn:Hfmt;
    [| discriminate].
  rewrite (text_of_rendered _ _ Hfmt). unfold get_embedding. rewrite Hmodel.
  run_step. unfold IO.try_except. cbn.
  destruct (encode m text); [reflexivity | discriminate].
Qed.

Lemma process_resource_raises (r : row) (w : world) :
  renders r = true ->
  encodable m r = false ->
  process_resource self (resource_record r) w
  = (Raise ModelError, record_event (EvEncode (text_of (col_resource_data r))) w).
Proof.
  unfold renders, encodable, process_resource, resource_record.
  destruct (format_resource_text (col_resource_data r)) as [text|e] eqn:Hfmt;
    [| discriminate].
  intros _. rewrite (text_of_rendered _ _ Hfmt). unfold get_embedding. rewrite Hmodel.
  run_step. unfold IO.try_except. cbn.
  destruct (encode m text); [discriminate | reflexivity].
Qed.

Lemma loop_ok (rows : list row) (w : world) :
  forallb (encodable m) rows = true ->
  exists w',
    for_each (map resource_record rows) (process_resource self) w = (Ok tt, w')
    /\ durable w' = durable w
    /\ session w' = backfill m rows (session w)
    /\ next_id w' = next_id w
    /\ conn w' = conn w
    /\ reachable w' = reachable w
    /\ trace w' = (trace w ++ flat_map (row_events m) rows)%list.
Proof.
  revert w. induction rows as [|r rows IH]; intros w Hall.
  - exists w. cbn. rewrite app_nil_r. repeat split.
  - cbn in Hall. apply andb_true_iff in Hall. destruct Hall as [Hr Hrest].
    cbn [map for_each]. unfold IO.bind at 1.
    rewrite (process_resource_ok r w Hr).
    match goal with
    | |- context [for_each _ _ ?w1] =>
        destruct (IH w1 Hrest) as (w' & Hrun & Hd & Hs & Hn & Hc & Hre & Ht)
    end.
    exists w'. rewrite Hrun, Hd, Hs, Hn, Hc, Hre, Ht. cbn.
    rewrite <- !app_assoc. repeat split.
Qed.

Lemma loop_raises (rows : list row) (w : world) :
  forallb (encodable m) rows = false ->
  exists e w', for_each (map resource_record rows) (process_resource self) w
               = (Raise e, w').
Proof.
  revert w. induction rows as [|r rows IH]; intros w Hall.
  - discriminate.
  - cbn in Hall. cbn [map for_each]. unfold IO.bind at 1.
    destruct (encodable m r) eqn:Hr.
    + rewrite (process_resource_ok r w Hr). apply IH. exact Hall.
    + destruct (renders r) eqn:Hrend.
      * rewrite (process_resource_raises r w Hrend Hr). eexists. eexists. reflexivity.
      * destruct (process_resource_unrendered r w Hrend) as (e & Hstep).
        rewrite Hstep. exists e, w. reflexivity.
Qed.

End Loop.

(** ** A run of [update_embeddings] *)

Lemma verify_embeddings_run (w : world) :
  exists w',
    verify_embeddings w = (Ok tt, w')
    /\ durable w' = durable w
    /\ session w' = session w
    /\ next_id w' = next_id w
    /\ conn w' = conn w
    /\ reachable w' = reachable w
    /\ trace w' = (trace w ++ [EvExecute SelectCounts; EvExecute SelectSample])%list.
Proof.
  unfold verify_embeddings, IO.bind, IO.ret, execute, fetchone.
  cbn -[select_sample].
  destruct (select_sample (session w)); cbn;
    eexists; (split; [reflexivity |]); cbn; rewrite <- app_assoc; repeat split.
Qed.

Section Run.
Context {P : Platform}.
Variable self : LocalEmbeddingGenerator.

Lemma update_embeddings_unreachable (w : world) :
  reachable w = false ->
  exists w',
    update_embeddings self w = (Raise OperationalError, w')
    /\ durable w' = durable w
    /\ conn w' = ConnNone
    /\ trace w' = trace w.
Proof.
  intros Hup. unfold update_embeddings, IO.try_finally, IO.try_except, IO.bind.
  unfold conn_none, connect, if_conn. cbn. rewrite Hup. cbn.
  eexists. repeat split.
Qed.

Lemma update_embeddings_empty (w : world) :
  reachable w = true ->
  durable w = [] ->
  exists w',
    update_embeddings self w = (Raise NameError, w')
    /\ durable w' = []
    /\ session w' = []
    /\ conn w' = ConnClosed
    /\ trace w'
       = (trace w ++ [EvConnect; EvExecute SelectResources]
                  ++ insert_events sample_resources
                  ++ [EvRollback; EvClose])%list.
Proof.
  intros Hup Hempty. destruct w as [d s n rs c up tr]. cbn in Hup, Hempty. subst.
  unfold update_embeddings, IO.try_finally, IO.try_except, IO.bind.
  cbn -[create_sample_embeddings sample_resources].
  match goal with
  | |- context [create_sample_embeddings ?w1] =>
      destruct (create_sample_embeddings_run w1) as (ws & Hrun & Hd & Hs & Hc & Hr & Ht)
  end.
  rewrite Hrun. cbn -[sample_resources] in Hd, Hs, Hc, Hr, Ht.
  unfold if_conn. cbn -[sample_resources].
  repeat (rewrite Hc; cbn -[sample_resources]).
  eexists. split; [reflexivity |]. cbn -[sample_resources].
  rewrite Hd, Ht, <- !app_assoc. repeat split.
Qed.

Lemma update_embeddings_loop (w wl : world) (r : outcome unit) :
  reachable w = true ->
  durable w <> [] ->
  for_each (select_resources (durable w)) (process_resource self) (loop_entry self w)
  = (r, wl) ->
  exists w',
    update_embeddings self w = (r, w')
    /\ conn w' = ConnClosed
    /\ session w' = durable w'
    /\ match r with
       | Ok _ =>
           durable w' = session wl
           /\ trace w' = (trace wl ++ [EvCommit; EvExecute SelectCounts;
                                       EvExecute SelectSample; EvClose])%list
       | Raise _ =>
           durable w' = durable w
           /\ trace w' = (trace wl ++ [EvRollback; EvClose])%list
       end.
Proof.
  intros Hup Hrows Hloop. destruct w as [d s n rs c up tr]. cbn in Hup, Hrows. subst.
  assert (Hfetched : select_resources d <> []).
  { unfold select_resources. intros Hnil. apply map_eq_nil in Hnil.
    now apply order_by_id_nonempty in Hnil. }
  unfold loop_entry in Hloop. cbn -[select_resources for_each] in Hloop.
  destruct (loop_in_transaction self _ _ _ _ Hloop)
    as [(Hd & Hn & Hc & Hr & _) Hexn].
  cbn in Hd, Hn, Hc, Hr.
  unfold update_embeddings, IO.try_finally, IO.try_except, IO.bind.
  cbn -[select_resources for_each verify_embeddings].
  destruct (select_resources d) as [|r0 l] eqn:E; [contradiction |].
  cbn -[select_resources for_each verify_embeddings].
  rewrite Hloop. destruct r as [[]|e].
  - cbn -[verify_embeddings].
    match goal with
    | |- context [verify_embeddings ?w1] =>
        destruct (verify_embeddings_run w1) as (wv & Hv & Hvd & Hvs & Hvn & Hvc & Hvr & Hvt)
    end.
    rewrite Hv. cbn in Hvd, Hvs, Hvn, Hvc, Hvr, Hvt.
    unfold if_conn. rewrite Hvc, Hc. cbn.
    eexists. split; [reflexivity |]. cbn. rewrite Hvd, Hvt.
    rewrite <- !app_assoc. repeat split.
  - rewrite (Hexn e eq_refl). unfold if_conn. cbn.
    repeat (rewrite Hc; cbn).
    eexists. split; [reflexivity |]. cbn. rewrite Hd.
    rewrite <- !app_assoc. repeat split.
Qed.

End Run.

Section Outcome.
Context {P : Platform}.
Variable self : LocalEmbeddingGenerator.

Lemma loop_entry_world (w : world) :
  reachable w = true ->
  durable (loop_entry self w) = durable w
  /\ session (loop_entry self w) = durable w
  /\ next_id (loop_entry self w) = next_id w
  /\ conn (loop_entry self w) = ConnOpen
  /\ trace (loop_entry self w)
     = (trace w ++ [EvConnect; EvExecute SelectResources])%list.
Proof.
  intros Hup. destruct w as [d s n rs c up tr]. cbn in Hup. subst.
  unfold loop_entry. cbn -[select_resources]. rewrite <- app_assoc. repeat split.
Qed.

Variable m : Model.
Hypothesis Hmodel : self_model self = Some m.

(** A run over a table whose rows the model all encodes. *)
Lemma update_embeddings_completes (w : world) :
  reachable w = true ->
  durable w <> [] ->
  forallb (encodable m) (durable w) = true ->
  exists w',
    update_embeddings self w = (Ok tt, w')
    /\ durable w' = backfill m (order_by_id (durable w)) (durable w)
    /\ session w' = durable w'
    /\ conn w' = ConnClosed
    /\ trace w'
       = (trace w ++ [EvConnect; EvExecute SelectResources]
                  ++ flat_map (row_events m) (order_by_id (durable w))
                  ++ [EvCommit; EvExecute SelectCounts; EvExecute SelectSample;
                      EvClose])%list.
Proof.
  intros Hup Hrows Hall.
  assert (Hsorted : forallb (encodable m) (order_by_id (durable w)) = true).
  { rewrite forallb_forall in *. intros r Hin. apply Hall.
    eapply Permutation_in; [apply order_by_id_perm | exact Hin]. }
  destruct (loop_ok self m Hmodel _ (loop_entry self w) Hsorted)
    as (wl & Hloop & _ & Hs & _ & _ & _ & Ht).
  destruct (loop_entry_world w Hup) as (_ & Hes & _ & _ & Het).
  destruct (update_embeddings_loop self w wl (Ok tt) Hup Hrows Hloop)
    as (w' & Hrun & Hc & Hsd & Hd & Htr).
  exists w'. rewrite Hrun, Hd, Htr, Hs, Ht, Hes, Het.
  rewrite <- !app_assoc. repeat split; [congruence | exact Hc].
Qed.

(** A run over a table with a row that does not get through the
    loop. *)
Lemma update_embeddings_aborts (w : world) :
  reachable w = true ->
  durable w <> [] ->
  forallb (encodable m) (durable w) = false ->
  exists e w',
    update_embeddings self w = (Raise e, w')
    /\ durable w' = durable w
    /\ conn w' = ConnClosed.
Proof.
  intros Hup Hrows Hall.
  assert (Hsorted : forallb (encodable m) (order_by_id (durable w)) = false).
  { destruct (forallb (encodable m) (order_by_id (durable w))) eqn:E; [| reflexivity].
    rewrite <- Hall. symmetry. rewrite forallb_forall in *. intros r Hin. apply E.
    eapply Permutation_in; [apply Permutation_sym, order_by_id_perm | exact Hin]. }
  destruct (loop_raises self m Hmodel _ (loop_entry self w) Hsorted)
    as (e & wl & Hloop).
  destruct (update_embeddings_loop self w wl (Raise e) Hup Hrows Hloop)
    as (w' & Hrun & Hc & _ & Hd & _).
  exists e, w'. repeat split; assumption.
Qed.

End Outcome.

(** ** Every way a run can end *)

Section Outcomes.
Context {P : Platform}.
Variable self : LocalEmbeddingGenerator.

Lemma loop_without_model (rows : list row) (w : world) :
  self_model self = None ->
  forallb renders (firstn 1 rows) = true ->
  rows <> [] ->
  for_each (map resource_record rows) (process_resource self) w
  = (Raise RuntimeError, w).
Proof.
  intros Hmodel Hfirst Hrows. destruct rows as [|r rows]; [contradiction |].
  cbn in Hfirst. rewrite andb_true_r in Hfirst.
  cbn [map for_each]. unfold IO.bind at 1.
  unfold process_resource, resource_record.
  destruct (format_resource_text (col_resource_data r)) as [text|e] eqn:Hfmt.
  - unfold get_embedding. rewrite Hmodel. reflexivity.
  - unfold renders in Hfirst. cbn in Hfirst. rewrite Hfmt in Hfirst. discriminate.
Qed.

(** Without a model the loop over a table with rows raises at its
    first row, one way or the other. *)
Lemma loop_unloaded (rows : list row) (w : world) :
  self_model self = None ->
  rows <> [] ->
  exists e w', for_each (map resource_record rows) (process_resource self) w
               = (Raise e, w').
Proof.
  intros Hmodel Hrows. destruct (forallb renders (firstn 1 rows)) eqn:Hfirst.
  - rewrite (loop_without_model rows w Hmodel Hfirst Hrows). eexists. eexists.
    reflexivity.
  - destruct rows as [|r rows]; [contradiction |].
    cbn in Hfirst. rewrite andb_true_r in Hfirst.
    cbn [map for_each]. unfold IO.bind at 1.
    destruct (process_resource_unrendered self r w Hfirst) as (e & Hstep).
    rewrite Hstep. exists e, w. reflexivity.
Qed.

Lemma ordered_rows_encodable (m : Model) (t : table) :
  forallb (encodable m) (order_by_id t) = forallb (encodable m) t.
Proof.
  destruct (forallb (encodable m) t) eqn:E.
  - rewrite forallb_forall in *. intros r Hin. apply E.
    eapply Permutation_in; [apply order_by_id_perm | exact Hin].
  - destruct (forallb (encodable m) (order_by_id t)) eqn:F; [| reflexivity].
    rewrite <- E. symmetry. rewrite forallb_forall in *. intros r Hin. apply F.
    eapply Permutation_in; [apply Permutation_sym, order_by_id_perm | exact Hin].
Qed.

(** The two ways a run ends. It raises, and then the committed table
    is the one it started from and no commit was sent; or it returns,
    and then the server was reachable, the table had rows, the model
    was loaded and encoded every row, and the backfilled table is
    committed by the one commit, sent after the last update. *)
Lemma update_embeddings_outcomes (w : world) :
  exists r w',
    update_embeddings self w = (r, w')
    /\ match r with
       | Raise e =>
           durable w' = durable w
           /\ is_Exception e = true
           /\ exists evs, trace w' = (trace w ++ evs)%list /\ ~ In EvCommit evs
       | Ok _ =>
           reachable w = true
           /\ durable w <> []
           /\ exists m,
                self_model self = Some m
                /\ forallb (encodable m) (durable w) = true
                /\ durable w' = backfill m (order_by_id (durable w)) (durable w)
                /\ trace w'
                   = (trace w ++ [EvConnect; EvExecute SelectResources]
                        ++ flat_map (row_events m) (order_by_id (durable w))
                        ++ [EvCommit; EvExecute SelectCounts;
                            EvExecute SelectSample; EvClose])%list
       end.
Proof.
  destruct (reachable w) eqn:Hup.
  2: { destruct (update_embeddings_unreachable self w Hup) as (w' & Hrun & Hd & _ & Ht).
       exists (Raise OperationalError), w'. split; [exact Hrun |].
       repeat split; [exact Hd |]. exists []. rewrite app_nil_r.
       split; [exact Ht | intros []]. }
  destruct (durable w) as [|r0 t0] eqn:Hrows.
  { destruct (update_embeddings_empty self w Hup Hrows) as (w' & Hrun & Hd & _ & _ & Ht).
    exists (Raise NameError), w'. split; [exact Hrun |].
    repeat split; [exact Hd |]. eexists. split; [exact Ht |].
    cbn. intros H. repeat (destruct H as [H | H]; [discriminate H |]). exact H. }
  rewrite <- Hrows.
  assert (Hne : durable w <> []) by (rewrite Hrows; discriminate).
  destruct (for_each (select_resources (durable w)) (process_resource self)
                     (loop_entry self w)) as [r wl] eqn:Hloop.
  destruct (update_embeddings_loop self w wl r Hup Hne Hloop)
    as (w' & Hrun & _ & _ & Hend).
  destruct (loop_in_transaction self _ _ _ _ Hloop)
    as [(_ & _ & _ & _ & evs & Hevs & Hno) Hexn].
  destruct (loop_entry_world self w Hup) as (_ & Hes & _ & _ & Het).
  exists r, w'. split; [exact Hrun |].
  destruct r as [[]|e].
  - destruct Hend as [Hd Ht]. repeat split; try assumption.
    destruct (self_model self) as [m|] eqn:Hmodel.
    + exists m. split; [reflexivity |].
      destruct (forallb (encodable m) (durable w)) eqn:Hall.
      * assert (Hsorted := ordered_rows_encodable m (durable w)).
        rewrite Hall in Hsorted.
        destruct (loop_ok self m Hmodel _ (loop_entry self w) Hsorted)
          as (wl' & Hloop' & _ & Hs & _ & _ & _ & Htl).
        unfold select_resources in Hloop. rewrite Hloop in Hloop'.
        inversion Hloop'; subst wl'.
        split; [reflexivity |]. rewrite Hd, Ht, Hs, Htl, Hes, Het.
        rewrite <- !app_assoc. split; reflexivity.
      * assert (Hsorted := ordered_rows_encodable m (durable w)).
        rewrite Hall in Hsorted.
        destruct (loop_raises self m Hmodel _ (loop_entry self w) Hsorted)
          as (e' & wl' & Hloop').
        unfold select_resources in Hloop. rewrite Hloop in Hloop'. discriminate.
    + exfalso. unfold select_resources in Hloop.
      destruct (loop_unloaded _ (loop_entry self w) Hmodel
                  (order_by_id_nonempty _ Hne)) as (e' & wl' & Hloop').
      rewrite Hloop in Hloop'. discriminate.
  - destruct Hend as [Hd Ht]. repeat split; [exact Hd | now apply Hexn |].
    exists ([EvConnect; EvExecute SelectResources] ++ evs ++ [EvRollback; EvClose])%list.
    split.
    + rewrite Ht, Hevs, Het. now rewrite <- !app_assoc.
    + intros Hin. apply in_app_or in Hin. destruct Hin as [Hin | Hin].
      * cbn in Hin. destruct Hin as [Hin | [Hin | []]]; discriminate.
      * apply in_app_or in Hin. destruct Hin as [Hin | Hin]; [tauto |].
        cbn in Hin. destruct Hin as [Hin | [Hin | []]]; discriminate.
Qed.

End Outcomes.

(** ** The process *)

Section Process.
Context {P : Platform}.

Lemma main_without_model (w : world) :
  pretrained "all-MiniLM-L6-v2" = None ->
  main w = (Raise (SystemExit 1), w).
Proof.
  intros Hload. unfold main, IO.try_except, IO.bind, load_model.
  rewrite Hload. reflexivity.
Qed.

Lemma main_with_model (m : Model) (w : world) :
  pretrained "all-MiniLM-L6-v2" = Some m ->
  exists self,
    self_model self = Some m
    /\ main w = IO.try_except (update_embeddings self) (fun _ => sys_exit 1) w.
Proof.
  intros Hload. eexists. split; [| unfold main, IO.try_except, IO.bind, load_model;
                                   rewrite Hload; reflexivity].
  reflexivity.
Qed.

(** [main] is its two calls and its [except] clause. *)
Lemma main_flow (w : world) :
  main w
  = match load_model (init main_config) w with
    | (Ok generator, w1) =>
        match update_embeddings generator w1 with
        | (Ok _, w2) => (Ok tt, w2)
        | (Raise e, w2) =>
            if is_Exception e then (Raise (SystemExit 1), w2) else (Raise e, w2)
        end
    | (Raise e, w1) =>
        if is_Exception e then (Raise (SystemExit 1), w1) else (Raise e, w1)
    end.
Proof.
  unfold main, IO.try_except, IO.bind. cbv zeta.
  destruct (load_model (init main_config) w) as [[generator|e] w1]; [| reflexivity].
  destruct (update_embeddings generator w1) as [[[]|e] w2]; reflexivity.
Qed.

Lemma load_model_raises (self : LocalEmbeddingGenerator) (w w1 : world) (e : exn) :
  load_model self w = (Raise e, w1) ->
  e = ModelError /\ w1 = w /\ pretrained "all-MiniLM-L6-v2" = None.
Proof.
  unfold load_model, IO.try_except.
  destruct (pretrained "all-MiniLM-L6-v2"); cbn; intros H; inversion H.
  repeat split.
Qed.



End Process.

(** ** Updates by primary key *)

Section Keyed.
Context {P : Platform}.
Variable m : Model.

(** What the updates for [rows] make of one row of the table. *)
Let touched (rows : list row) (r : row) : row :=
  match find (fun x => col_id x =? col_id r) rows with
  | Some x => set_embedding (Some (vec_of m x)) r
  | None => r
  end.

Lemma backfill_touched (rows : list row) (t : table) :
  unique_ids rows -> backfill m rows t = map (touched rows) t.
Proof.
  unfold unique_ids. revert t. induction rows as [|x rows IH]; intros t Hids.
  - cbn. symmetry. apply map_id.
  - inversion Hids as [|? ? Hfresh Hrest]; subst.
    change (backfill m (x :: rows) t)
      with (backfill m rows (update_embedding (vec_of m x) (col_id x) t)).
    rewrite IH by exact Hrest. unfold update_embedding. rewrite map_map.
    apply map_ext. intros r. unfold touched. cbn [find].
    rewrite (Z.eqb_sym (col_id x) (col_id r)).
    destruct (col_id r =? col_id x) eqn:E; [| reflexivity].
    cbn [set_embedding col_id].
    destruct (find (fun y => col_id y =? col_id r) rows) as [y|] eqn:F;
      [| reflexivity].
    apply find_some in F. destruct F as [Hin Hy]. apply Z.eqb_eq in Hy, E.
    exfalso. apply Hfresh. rewrite <- E, <- Hy. now apply in_map.
Qed.

Lemma unique_ids_injective (t : table) (a b : row) :
  unique_ids t -> In a t -> In b t -> col_id a = col_id b -> a = b.
Proof.
  unfold unique_ids. induction t as [|x t IH]; intros Hids Ha Hb Heq.
  - destruct Ha.
  - inversion Hids as [|? ? Hfresh Hrest]; subst. cbn in Ha, Hb.
    destruct Ha as [Ha | Ha], Hb as [Hb | Hb]; subst.
    + reflexivity.
    + exfalso. apply Hfresh. rewrite Heq. now apply in_map.
    + exfalso. apply Hfresh. rewrite <- Heq. now apply in_map.
    + now apply IH.
Qed.

(** With a primary key, the updates for all rows, in any order, give
    each row the vector of its own text. *)
Lemma backfill_embedded (rows : list row) (t : table) :
  unique_ids t -> Permutation rows t -> backfill m rows t = map (embedded m) t.
Proof.
  intros Hids Hperm.
  assert (Hrows : unique_ids rows).
  { unfold unique_ids in *. eapply Permutation_NoDup; [| exact Hids].
    apply Permutation_map, Permutation_sym, Hperm. }
  rewrite backfill_touched by exact Hrows.
  apply map_ext_in. intros r Hin. unfold touched, embedded.
  destruct (find (fun x => col_id x =? col_id r) rows) as [x|] eqn:F.
  - apply find_some in F. destruct F as [Hx Heq]. apply Z.eqb_eq in Heq.
    assert (x = r).
    { apply (unique_ids_injective t); try assumption.
      eapply Permutation_in; eassumption. }
    now subst.
  - exfalso. eapply find_none in F.
    + rewrite Z.eqb_refl in F. discriminate.
    + eapply Permutation_in; [apply Permutation_sym, Hperm | exact Hin].
Qed.

End Keyed.

(* ================================================================= *)
(** * The claims about a run *)

Section Claims.
Context {P : Platform}.

(** C1. When the loop of [update_embeddings] raises, whatever the row
    and the exception, the method rolls back, closes the connection and
    raises that same exception: the committed table is the one the run
    started from, so no embedding column has changed (the count of
    non-null embeddings is the same), and nothing between connecting
    and the rollback is a commit. *)
Theorem loop_failure_rolls_back (self : LocalEmbeddingGenerator) (w wl : world)
    (e : exn)
    (Hup : reachable w = true)
    (Hrows : durable w <> [])
    (Hloop : for_each (select_resources (durable w)) (process_resource self)
                      (loop_entry self w) = (Raise e, wl)) :
  exists w',
    update_embeddings self w = (Raise e, w')
    /\ durable w' = durable w
    /\ session w' = durable w
    /\ sql_count col_embedding (durable w') = sql_count col_embedding (durable w)
    /\ conn w' = ConnClosed
    /\ exists evs,
         trace w' = (trace w ++ evs ++ [EvRollback; EvClose])%list
         /\ ~ In EvCommit evs.
Proof.
  destruct (update_embeddings_loop self w wl (Raise e) Hup Hrows Hloop)
    as (w' & Hrun & Hc & Hsd & Hd & Ht).
  destruct (loop_in_transaction self _ _ _ _ Hloop)
    as [(_ & _ & _ & _ & evs & Hevs & Hno) _].
  destruct (loop_entry_world self w Hup) as (_ & _ & _ & _ & Het).
  exists w'. repeat split; try assumption; try congruence.
  exists ([EvConnect; EvExecute SelectResources] ++ evs)%list. split.
  - rewrite Ht, Hevs, Het. now rewrite <- !app_assoc.
  - intros Hin. apply in_app_or in Hin. destruct Hin as [Hin | Hin]; [| tauto].
    cbn in Hin. destruct Hin as [Hin | [Hin | []]]; discriminate.
Qed.

(** C8. On a run that completes, the rows are taken in ascending [id]
    order, all of them; for each row in that order the text is rendered
    and handed to the model, and the vector is written by an update
    whose key is that row's [id]; then comes the one commit. With [id]
    the primary key, the committed table then holds, for each row it
    held before, that row with the vector of its own text in the
    embedding column, and nothing else. *)
Theorem backfill_in_id_order (self : LocalEmbeddingGenerator) (m : Model) (w : world)
    (Hmodel : self_model self = Some m)
    (Hup : reachable w = true)
    (Hrows : durable w <> [])
    (Hall : forallb (encodable m) (durable w) = true)
    (Hids : unique_ids (durable w)) :
  let rows := order_by_id (durable w) in
  ascending rows
  /\ Permutation rows (durable w)
  /\ select_resources (durable w) = map resource_record rows
  /\ (forall r, In r rows ->
        format_resource_text (col_resource_data r) = Ok (text_of (col_resource_data r))
        /\ encode m (text_of (col_resource_data r)) = Some (vec_of m r))
  /\ exists w',
       update_embeddings self w = (Ok tt, w')
       /\ trace w'
          = (trace w ++ [EvConnect; EvExecute SelectResources]
               ++ flat_map
                    (fun r => [EvEncode (text_of (col_resource_data r));
                               EvExecute (UpdateEmbedding (vec_of m r) (col_id r))])
                    rows
               ++ [EvCommit; EvExecute SelectCounts; EvExecute SelectSample;
                   EvClose])%list
       /\ forall r',
            In r' (durable w')
            <-> exists r,
                  In r (durable w)
                  /\ r' = mk_row (col_id r) (col_resource_type r) (col_resource_id r)
                                 (col_resource_data r) (Some (vec_of m r)).
Proof.
  intros rows. split; [apply order_by_id_ascending |].
  split; [apply order_by_id_perm |]. split; [reflexivity |]. split.
  - intros r Hin.
    assert (Hr : encodable m r = true).
    { rewrite forallb_forall in Hall. apply Hall.
      eapply Permutation_in; [apply order_by_id_perm | exact Hin]. }
    unfold encodable in Hr. unfold vec_of.
    destruct (format_resource_text (col_resource_data r)) as [text|e] eqn:Hfmt;
      [| discriminate].
    rewrite (text_of_rendered _ _ Hfmt). split; [reflexivity |].
    destruct (encode m text); [reflexivity | discriminate].
  - destruct (update_embeddings_completes self m Hmodel w Hup Hrows Hall)
      as (w' & Hrun & Hd & _ & _ & Ht).
    exists w'. split; [exact Hrun |]. split; [exact Ht |].
    rewrite Hd, (backfill_embedded m _ _ Hids (order_by_id_perm _)).
    intros r'. rewrite in_map_iff. split.
    + intros (r & Heq & Hin). exists r. split; [exact Hin | now subst].
    + intros (r & Hin & Heq). exists r. split; [now subst | exact Hin].
Qed.

(** C3, as the code has it. The fetch step selects every row of the
    table, whatever its embedding column holds; and on a run that
    completes over a table with a primary key, every row, one that
    already had an embedding included, ends with the vector newly
    computed from its own text. *)
Theorem backfill_rewrites_every_row (self : LocalEmbeddingGenerator) (m : Model)
    (w : world)
    (Hmodel : self_model self = Some m)
    (Hup : reachable w = true)
    (Hrows : durable w <> [])
    (Hall : forallb (encodable m) (durable w) = true)
    (Hids : unique_ids (durable w)) :
  Permutation (select_resources (durable w)) (map resource_record (durable w))
  /\ exists w',
       update_embeddings self w = (Ok tt, w')
       /\ durable w'
          = map (fun r => set_embedding (Some (vec_of m r)) r) (durable w).
Proof.
  split.
  - unfold select_resources. apply Permutation_map, order_by_id_perm.
  - destruct (update_embeddings_completes self m Hmodel w Hup Hrows Hall)
      as (w' & Hrun & Hd & _).
    exists w'. split; [exact Hrun |]. rewrite Hd.
    apply backfill_embedded; [exact Hids | apply order_by_id_perm].
Qed.


(** C10. On an empty table [update_embeddings] raises [NameError]: the
    three inserts go out on the caller's cursor, the name [conn] is not
    bound where [create_sample_embeddings] evaluates it, and the method
    never returns; the caller rolls back and closes, no update of an
    embedding is ever sent, nothing is committed, and the process exits
    with status [1]. *)
Theorem empty_table_run_raises (self : LocalEmbeddingGenerator) (w : world)
    (Hup : reachable w = true)
    (Hempty : durable w = []) :
  (forall w0, fst (create_sample_embeddings w0) = Raise NameError)
  /\ exit_status (fst (main w)) = 1
  /\ exists w',
       update_embeddings self w = (Raise NameError, w')
       /\ durable w' = []
       /\ session w' = []
       /\ conn w' = ConnClosed
       /\ trace w'
          = (trace w ++ [EvConnect; EvExecute SelectResources]
                     ++ insert_events sample_resources
                     ++ [EvRollback; EvClose])%list.
Proof.
  split; [| split].
  - intros w0. destruct (create_sample_embeddings_run w0) as (w1 & Hrun & _).
    now rewrite Hrun.
  - rewrite main_flow.
    destruct (load_model (init main_config) w) as [[generator|e] w1] eqn:Hload.
    + assert (w1 = w).
      { unfold load_model, IO.try_except in Hload.
        destruct (pretrained "all-MiniLM-L6-v2"); cbn in Hload; now inversion Hload. }
      subst w1.
      destruct (update_embeddings_empty generator w Hup Hempty) as (w' & Hrun & _).
      rewrite Hrun. reflexivity.
    + destruct (load_model_raises _ _ _ _ Hload) as (-> & _). reflexivity.
  - destruct (update_embeddings_empty self w Hup Hempty) as (w' & Hrun & H).
    exists w'. split; assumption.
Qed.

End Claims.

(* ================================================================= *)
(** * Runs on the sample tables *)

Lemma three_rows_unique_keys : unique_keys three_rows.
Proof.
  unfold unique_keys. cbn. repeat constructor; cbn;
    intros H; repeat (destruct H as [H | H]; [discriminate H |]); exact H.
Qed.

Lemma two_rows_unique_ids : unique_ids two_rows.
Proof.
  unfold unique_ids. cbn. repeat constructor; cbn;
    intros H; repeat (destruct H as [H | H]; [discriminate H |]); exact H.
Qed.

(** Failure injection: the model has no vector for the second of three
    rows. The first row's update is sent, then the run rolls back; no
    row has an embedding afterwards, and the process exits with [1]. *)
Example failure_on_second_row :
  let end_of_run :=
    @update_embeddings sample_platform sample_self (boot three_rows 4 true) in
  fst end_of_run = Raise ModelError
  /\ durable (snd end_of_run) = three_rows
  /\ sql_count col_embedding (durable (snd end_of_run)) = 0%nat
  /\ trace (snd end_of_run)
     = [EvConnect; EvExecute SelectResources;
        EvEncode (@text_of sample_platform (PDict [("state", PStr "running")]));
        EvExecute (UpdateEmbedding [PrimFloat.one] 1);
        EvEncode "bad";
        EvRollback; EvClose]
  /\ exit_status (fst (@main sample_platform (boot three_rows 4 true))) = 1.
Proof. vm_compute. repeat split. Qed.

Lemma loop_failure_rolls_back_witness :
  exists w',
    @update_embeddings sample_platform sample_self (boot three_rows 4 true)
    = (Raise ModelError, w')
    /\ durable w' = three_rows
    /\ session w' = three_rows
    /\ sql_count col_embedding (durable w') = sql_count col_embedding three_rows
    /\ conn w' = ConnClosed
    /\ exists evs,
         trace w' = ([] ++ evs ++ [EvRollback; EvClose])%list
         /\ ~ In EvCommit evs.
Proof.
  apply (@loop_failure_rolls_back sample_platform sample_self
           (boot three_rows 4 true)
           (snd (for_each (select_resources three_rows)
                          (@process_resource sample_platform sample_self)
                          (@loop_entry sample_platform sample_self
                                       (boot three_rows 4 true))))
           ModelError).
  - reflexivity.
  - discriminate.
  - vm_compute. reflexivity.
Defined.

Lemma seeding_idempotent_witness :
  let once := snd (create_sample_embeddings (boot three_rows 4 true)) in
  let twice := snd (create_sample_embeddings once) in
  session twice = session once
  /\ unique_keys (session once)
  /\ unique_keys (session twice).
Proof.
  apply (seeding_idempotent (boot three_rows 4 true)).
  exact three_rows_unique_keys.
Defined.

Lemma backfill_in_id_order_witness :
  exists w',
    @update_embeddings sample_platform sample_self (boot two_rows 8 true) = (Ok tt, w')
    /\ trace w'
       = [EvConnect; EvExecute SelectResources;
          EvEncode "four"; EvExecute (UpdateEmbedding [PrimFloat.one] 4);
          EvEncode "seven"; EvExecute (UpdateEmbedding [PrimFloat.one] 7);
          EvCommit; EvExecute SelectCounts; EvExecute SelectSample; EvClose]
    /\ In (mk_row 4 "ec2_instance" "i-4" (PStr "four") (Some [PrimFloat.one]))
          (durable w')
    /\ In (mk_row 7 "ec2_instance" "i-7" (PStr "seven") (Some [PrimFloat.one]))
          (durable w').
Proof.
  destruct (@backfill_in_id_order sample_platform sample_self tt
              (boot two_rows 8 true) eq_refl eq_refl)
    as (_ & _ & _ & _ & w' & Hrun & Htrace & Hrows).
  - discriminate.
  - reflexivity.
  - exact two_rows_unique_ids.
  - exists w'. split; [exact Hrun |]. split; [exact Htrace |]. split.
    + apply Hrows.
      exists (mk_row 4 "ec2_instance" "i-4" (PStr "four") None).
      split; [right; left; reflexivity | reflexivity].
    + apply Hrows.
      exists (mk_row 7 "ec2_instance" "i-7" (PStr "seven") (Some [PrimFloat.zero])).
      split; [left; reflexivity | reflexivity].
Defined.

Lemma backfill_rewrites_every_row_witness :
  exists w',
    @update_embeddings sample_platform sample_self (boot two_rows 8 true) = (Ok tt, w')
    /\ durable w'
       = [mk_row 7 "ec2_instance" "i-7" (PStr "seven") (Some [PrimFloat.one]);
          mk_row 4 "ec2_instance" "i-4" (PStr "four") (Some [PrimFloat.one])].
Proof.
  destruct (@backfill_rewrites_every_row sample_platform sample_self tt
              (boot two_rows 8 true) eq_refl eq_refl)
    as (_ & w' & Hrun & Hd).
  - discriminate.
  - reflexivity.
  - exact two_rows_unique_ids.
  - exists w'. split; [exact Hrun | exact Hd].
Defined.

Lemma empty_table_run_raises_witness :
  exit_status (fst (@main sample_platform (boot [] 1 true))) = 1
  /\ exists w',
       @update_embeddings sample_platform sample_self (boot [] 1 true)
       = (Raise NameError, w')
       /\ durable w' = []
       /\ conn w' = ConnClosed.
Proof.
  destruct (@empty_table_run_raises sample_platform sample_self (boot [] 1 true)
              eq_refl eq_refl)
    as (_ & Hexit & w' & Hrun & Hd & _ & Hc & _).
  split; [exact Hexit |]. exists w'. repeat split; assumption.
Defined.


Section Oversized.
Context {P : Platform}.
Variable z : Z.
Hypothesis Hint : int_repr z = Raise ValueError.
Hypothesis Hdepth : (2 <= repr_depth)%nat.

Lemma py_str_oversized : py_str (PInt z) = Raise ValueError.
Proof.
  unfold py_str. destruct repr_depth as [|deeper]; [lia |].
  cbn [py_repr_at]. exact Hint.
Qed.

Lemma format_resource_text_oversized :
  format_resource_text (PInt z) = Raise ValueError.
Proof.
  unfold format_resource_text.
  cbn [py_get Exc.bind Exc.try_except is_Exception]. exact py_str_oversized.
Qed.


End Oversized.

Section Nested.
Context {P : Platform}.

Lemma py_repr_at_nested (n : nat) : py_repr_at (nested n) n = Raise RecursionError.
Proof.
  induction n as [|n IH]; [reflexivity |].
  cbn [nested py_repr_at Exc.traverse Exc.bind]. now rewrite IH.
Qed.

Lemma format_resource_text_nested :
  format_resource_text (nested repr_depth) = Raise RecursionError.
Proof.
  assert (Hstr : forall n, format_resource_text (nested n)
                           = py_repr_at (nested n) repr_depth)
    by (intros [|n]; reflexivity).
  rewrite Hstr. apply py_repr_at_nested.
Qed.

End Nested.

(** [str()] of the integer [10 ** 4300], which has 4301 digits, raises
    under the default limit. *)
Lemma int_repr_ten_to_4300 :
  @int_repr sample_platform (10 ^ 4300) = Raise ValueError.
Proof.
  apply (@int_repr_over_limit sample_platform).
  - apply Nat.ltb_lt. reflexivity.
  - change (4300 < decimal_digits (10 ^ Z.of_nat 4300))%nat.
    rewrite power_of_ten_digits. apply Nat.lt_succ_diag_r.
Qed.

Lemma sample_repr_depth : (2 <= @repr_depth sample_platform)%nat.
Proof. apply Nat.leb_le. reflexivity. Qed.


(** C5 fails as stated. On an integer of 4301 digits, which is no
    mapping, the first [.get] raises, the [except] clause evaluates
    [str(resource_data)], and that raises [ValueError]; on a list nested
    deeper than [repr] can follow it raises [RecursionError]. The method
    raises in both cases. *)
Lemma str_fallback_raises :
  @format_resource_text sample_platform (PInt (10 ^ 4300)) = Raise ValueError
  /\ @format_resource_text sample_platform (nested (@repr_depth sample_platform))
     = Raise RecursionError.
Proof.
  split; [| exact (@format_resource_text_nested sample_platform)].
  exact (@format_resource_text_oversized sample_platform (10 ^ 4300)
           int_repr_ten_to_4300 sample_repr_depth).
Qed.

(** C2. Starting from an empty table, the three sample rows are in the
    transaction's view when [create_sample_embeddings] stops, none with
    an embedding; the call ends in [NameError], the loop is never
    entered, no update is sent, and after the run the table is empty
    again: no seeded row has received an embedding. *)
Example seeded_run_never_embeds :
  let start := boot [] 1 true in
  let seeded := snd (create_sample_embeddings (@loop_entry sample_platform sample_self start)) in
  let end_of_run := @update_embeddings sample_platform sample_self start in
  map col_id (session seeded) = [1; 2; 3]
  /\ map col_embedding (session seeded) = [None; None; None]
  /\ fst (create_sample_embeddings (@loop_entry sample_platform sample_self start))
     = Raise NameError
  /\ fst end_of_run = Raise NameError
  /\ durable (snd end_of_run) = []
  /\ trace (snd end_of_run)
     = ([EvConnect; EvExecute SelectResources] ++ insert_events sample_resources
        ++ [EvRollback; EvClose])%list
  /\ exit_status (fst (@main sample_platform start)) = 1.
Proof. vm_compute. repeat split. Qed.

(** C3 fails as stated. Row 7 of the sample table already has an
    embedding; the fetch step selects it all the same, the loop sends
    an update for it, and the committed row carries the new vector in
    place of the old one. *)
Lemma fetch_reads_embedded_rows :
  let end_of_run :=
    @update_embeddings sample_platform sample_self (boot two_rows 8 true) in
  let lacking := filter (fun r => negb (has_embedding r)) two_rows in
  select_resources two_rows <> select_resources lacking
  /\ (exists r, In r two_rows
                /\ has_embedding r = true
                /\ In (resource_record r) (select_resources two_rows)
                /\ In (EvExecute (UpdateEmbedding [PrimFloat.one] (col_id r)))
                      (trace (snd end_of_run)))
  /\ map col_embedding two_rows = [Some [PrimFloat.zero]; None]
  /\ map col_embedding (durable (snd end_of_run))
     = [Some [PrimFloat.one]; Some [PrimFloat.one]].
Proof.
  split; [vm_compute; discriminate |]. split.
  - exists (mk_row 7 "ec2_instance" "i-7" (PStr "seven") (Some [PrimFloat.zero])).
    vm_compute. repeat split.
    + left. reflexivity.
    + right. left. reflexivity.
    + do 5 right. left. reflexivity.
  - vm_compute. split; reflexivity.
Qed.

(* ================================================================= *)
(** * Further properties of the job *)

(** ** What no step touches *)

Section Keeps.
Context {A B : Type}.
Variable f : world -> B.

Lemma keeps_ret (a : A) : keeps f (IO.ret a).
Proof. intros w. reflexivity. Qed.

Lemma keeps_raise (e : exn) : keeps f (@IO.raise A e).
Proof. intros w. reflexivity. Qed.

Lemma keeps_lift (r : outcome A) : keeps f (IO.lift r).
Proof. intros w. reflexivity. Qed.

Lemma keeps_try_except (body : M A) (handler : exn -> M A) :
  keeps f body -> (forall e, keeps f (handler e)) ->
  keeps f (IO.try_except body handler).
Proof.
  intros Hb Hh w. unfold IO.try_except. specialize (Hb w).
  destruct (body w) as [[a|e] w1]; cbn in *; [exact Hb |].
  destruct (is_Exception e); cbn; [| exact Hb].
  rewrite (Hh e w1). exact Hb.
Qed.

Lemma keeps_try_finally (body : M A) (cleanup : M unit) :
  keeps f body -> keeps f cleanup -> keeps f (IO.try_finally body cleanup).
Proof.
  intros Hb Hc w. unfold IO.try_finally. specialize (Hb w).
  destruct (body w) as [r w1]. specialize (Hc w1).
  destruct (cleanup w1) as [[[]|e] w2]; cbn in *; congruence.
Qed.

End Keeps.

Lemma keeps_bind {A B C} (f : world -> C) (m : M A) (k : A -> M B) :
  keeps f m -> (forall a, keeps f (k a)) -> keeps f (IO.bind m k).
Proof.
  intros Hm Hk w. unfold IO.bind. specialize (Hm w).
  destruct (m w) as [[a|e] w1]; cbn in *; [| exact Hm].
  rewrite (Hk a w1). exact Hm.
Qed.

Lemma keeps_for_each {A C} (f : world -> C) (xs : list A) (body : A -> M unit) :
  (forall x, keeps f (body x)) -> keeps f (for_each xs body).
Proof.
  intros Hb. induction xs as [|x xs IH]; cbn [for_each].
  - apply keeps_ret.
  - apply keeps_bind; [apply Hb | intros _; exact IH].
Qed.

Lemma keeps_if_conn {C} (f : world -> C) (m : M unit) :
  keeps f m -> keeps f (if_conn m).
Proof. intros Hm w. unfold if_conn. destruct (conn w); [reflexivity | apply Hm ..]. Qed.

(** Whether the server answers is not for the script to change. *)
Lemma keeps_reachable_primitives :
  (forall config, keeps reachable (connect config))
  /\ (forall s, keeps reachable (execute s))
  /\ keeps reachable fetchall
  /\ keeps reachable fetchone
  /\ keeps reachable commit
  /\ keeps reachable rollback
  /\ keeps reachable close
  /\ keeps reachable conn_none
  /\ (forall locals name, keeps reachable (load_name locals name)).
Proof.
  repeat match goal with |- _ /\ _ => split end; intros; intros w;
    try reflexivity.
  - unfold connect. destruct (reachable w) eqn:E; cbn; [reflexivity | exact E].
  - unfold execute. destruct s; reflexivity.
  - unfold fetchall. destruct (result_set w); reflexivity.
  - unfold fetchone. destruct (result_set w) as [[|r rest]|]; reflexivity.
  - unfold load_name. destruct (existsb _ _); reflexivity.
Qed.

Section KeepsReachable.
Context {P : Platform}.

Lemma process_resource_keeps_reachable (self : LocalEmbeddingGenerator)
    (fetched : record) :
  keeps reachable (process_resource self fetched).
Proof.
  intros w. destruct (process_resource self fetched w) as [r w'] eqn:E.
  apply process_resource_in_transaction in E.
  destruct E as [(_ & _ & _ & Hr & _) _]. exact Hr.
Qed.

Lemma update_embeddings_keeps_reachable (self : LocalEmbeddingGenerator) :
  keeps reachable (update_embeddings self).
Proof.
  destruct keeps_reachable_primitives
    as (Hconnect & Hexec & Hall & Hone & Hcommit & Hroll & Hclose & Hnone & Hname).
  assert (Hseed : keeps reachable create_sample_embeddings).
  { unfold create_sample_embeddings.
    apply keeps_bind; [apply keeps_for_each; intros [[rt rid] data]; apply Hexec |].
    intros _. apply keeps_bind; [apply Hname | intros _; apply Hcommit]. }
  assert (Hverify : keeps reachable verify_embeddings).
  { unfold verify_embeddings.
    apply keeps_bind; [apply Hexec | intros _].
    apply keeps_bind; [apply Hone | intros result].
    apply keeps_bind.
    - destruct result as [[| |]|]; (apply keeps_ret || apply keeps_raise).
    - intros _. apply keeps_bind; [apply Hexec | intros _].
      apply keeps_bind; [apply Hone | intros _; apply keeps_ret]. }
  unfold update_embeddings.
  apply keeps_bind; [apply Hnone | intros _].
  apply keeps_try_finally; [| apply keeps_if_conn, Hclose].
  apply keeps_try_except.
  - apply keeps_bind; [apply Hconnect | intros _].
    apply keeps_bind; [apply Hexec | intros _].
    apply keeps_bind; [apply Hall | intros resources].
    apply keeps_bind.
    + destruct resources; [| apply keeps_ret].
      apply keeps_bind; [apply Hseed | intros _; apply Hall].
    + intros fetched.
      apply keeps_bind;
        [apply keeps_for_each; intros x; apply process_resource_keeps_reachable |].
      intros _. apply keeps_bind; [apply Hcommit | intros _; apply Hverify].
  - intros e. apply keeps_bind; [apply keeps_if_conn, Hroll | intros _; apply keeps_raise].
Qed.

End KeepsReachable.


(** ** Atomicity, cleanup and what the job leaves alone *)

Lemma update_embedding_payload (v : vector) (i : Z) (t : table) :
  map payload_of (update_embedding v i t) = map payload_of t.
Proof.
  unfold update_embedding. rewrite map_map. apply map_ext. intros r.
  destruct (col_id r =? i); reflexivity.
Qed.

Section Frame.
Context {P : Platform}.

Lemma backfill_payload (m : Model) (rows : list row) (t : table) :
  map payload_of (backfill m rows t) = map payload_of t.
Proof.
  revert t. induction rows as [|x rows IH]; intros t; [reflexivity |].
  change (backfill m (x :: rows) t)
    with (backfill m rows (update_embedding (vec_of m x) (col_id x) t)).
  now rewrite IH, update_embedding_payload.
Qed.

Lemma row_events_no_commit (m : Model) (rows : list row) :
  ~ In EvCommit (flat_map (row_events m) rows).
Proof.
  intros Hin. apply in_flat_map in Hin. destruct Hin as (r & _ & Hin).
  cbn in Hin. destruct Hin as [Hin | [Hin | []]]; discriminate.
Qed.

Variable self : LocalEmbeddingGenerator.

(** X1. A run that fails before the commit changes nothing. When the
    server is unreachable, or the table is empty, or no model is loaded,
    or the model is loaded and some row does not get through the body
    of the loop, [update_embeddings] raises an [Exception], which
    [main] catches; no commit was sent and the committed table is the
    one the run found. *)
Theorem raising_run_commits_nothing (w : world)
    (Hfails : reachable w = false
              \/ durable w = []
              \/ self_model self = None
              \/ exists m, self_model self = Some m
                           /\ forallb (encodable m) (durable w) = false) :
  exists e w',
    update_embeddings self w = (Raise e, w')
    /\ durable w' = durable w
    /\ is_Exception e = true
    /\ exists evs, trace w' = (trace w ++ evs)%list /\ ~ In EvCommit evs.
Proof.
  destruct (update_embeddings_outcomes self w) as (r & w' & Hrun & Hend).
  destruct r as [[]|e].
  - exfalso. destruct Hend as (Hup & Hne & m & Hmodel & Hall & _).
    destruct Hfails as [H | [H | [H | (m' & Hm' & H)]]].
    + congruence.
    + contradiction.
    + congruence.
    + rewrite Hmodel in Hm'. inversion Hm'; subst m'. congruence.
  - exists e, w'. split; [exact Hrun | exact Hend].
Qed.

(** X2. A run that returns has sent exactly one commit, after every update
    and before the two verification queries; what it committed is the
    table with the updates of all rows applied. *)
Theorem returning_run_commits_once (w w' : world)
    (Hrun : update_embeddings self w = (Ok tt, w')) :
  exists evs,
    trace w' = (trace w ++ evs ++ [EvCommit; EvExecute SelectCounts;
                                   EvExecute SelectSample; EvClose])%list
    /\ ~ In EvCommit evs
    /\ (forall v i, In (EvExecute (UpdateEmbedding v i)) (trace w') ->
                    In (EvExecute (UpdateEmbedding v i)) (trace w ++ evs)%list)
    /\ session w' = durable w'.
Proof.
  destruct (update_embeddings_outcomes self w) as (r & w1 & Hrun1 & Hend).
  rewrite Hrun in Hrun1. inversion Hrun1; subst r w1.
  destruct Hend as (Hup & Hne & m & Hmodel & Hall & Hd & Ht).
  exists ([EvConnect; EvExecute SelectResources]
            ++ flat_map (row_events m) (order_by_id (durable w)))%list.
  split; [rewrite Ht; now rewrite <- !app_assoc |]. split; [| split].
  - intros Hin. apply in_app_or in Hin. destruct Hin as [Hin | Hin].
    + cbn in Hin. destruct Hin as [Hin | [Hin | []]]; discriminate.
    + now apply row_events_no_commit in Hin.
  - intros v i Hin. rewrite Ht in Hin.
    rewrite !app_assoc in Hin. apply in_app_or in Hin.
    destruct Hin as [Hin | Hin].
    + rewrite <- app_assoc in Hin. exact Hin.
    + cbn in Hin. repeat (destruct Hin as [Hin | Hin]; [discriminate Hin |]).
      destruct Hin.
  - destruct (update_embeddings_completes self m Hmodel w Hup Hne Hall)
      as (w2 & Hrun2 & _ & Hs & _).
    rewrite Hrun in Hrun2. inversion Hrun2; subst w2. exact Hs.
Qed.

(** X3. The connection is closed on every exit path. When the server is
    reachable, every run, returning or raising, ends with the close of
    the connection it opened, and leaves no uncommitted work behind;
    when it is not, no connection exists and nothing was sent. *)
Theorem connection_closed_on_every_path (w : world) :
  let w' := snd (update_embeddings self w) in
  if reachable w
  then conn w' = ConnClosed
       /\ session w' = durable w'
       /\ exists evs, trace w' = (trace w ++ EvConnect :: evs ++ [EvClose])%list
  else conn w' = ConnNone
       /\ trace w' = trace w
       /\ fst (update_embeddings self w) = Raise OperationalError.
Proof.
  intros w'. subst w'. destruct (reachable w) eqn:Hup.
  - destruct (durable w) as [|r0 t0] eqn:Hrows.
    + destruct (update_embeddings_empty self w Hup Hrows)
        as (w' & Hrun & Hd & Hs & Hc & Ht).
      rewrite Hrun. cbn [snd]. repeat split; [exact Hc | congruence |].
      exists (EvExecute SelectResources :: insert_events sample_resources
                ++ [EvRollback])%list.
      rewrite Ht. cbn -[insert_events]. rewrite <- ?app_assoc. reflexivity.
    + assert (Hne : durable w <> []) by (rewrite Hrows; discriminate).
      destruct (for_each (select_resources (durable w)) (process_resource self)
                         (loop_entry self w)) as [r wl] eqn:Hloop.
      destruct (update_embeddings_loop self w wl r Hup Hne Hloop)
        as (w' & Hrun & Hc & Hs & Hend).
      destruct (loop_in_transaction self _ _ _ _ Hloop)
        as [(_ & _ & _ & _ & evs & Hevs & _) _].
      destruct (loop_entry_world self w Hup) as (_ & _ & _ & _ & Het).
      rewrite Hrun. cbn [snd]. repeat split; [exact Hc | exact Hs |].
      destruct r as [[]|e]; destruct Hend as [_ Ht]; rewrite Ht, Hevs, Het.
      * exists (EvExecute SelectResources :: evs
                  ++ [EvCommit; EvExecute SelectCounts; EvExecute SelectSample])%list.
        cbn. rewrite <- ?app_assoc. cbn. rewrite <- ?app_assoc. reflexivity.
      * exists (EvExecute SelectResources :: evs ++ [EvRollback])%list.
        cbn. rewrite <- ?app_assoc. cbn. rewrite <- ?app_assoc. reflexivity.
  - destruct (update_embeddings_unreachable self w Hup) as (w' & Hrun & _ & Hc & Ht).
    rewrite Hrun. cbn. repeat split; assumption.
Qed.

(** X4. The job writes the embedding column and nothing else: whatever
    happens in a run, the committed table afterwards holds the same
    rows, counted with multiplicity, with the same [id],
    [resource_type], [resource_id] and [resource_data]. No row is added
    or removed, and no column but [embedding] is written. *)
Theorem run_writes_only_embeddings (w : world) :
  Permutation (map payload_of (durable (snd (update_embeddings self w))))
              (map payload_of (durable w)).
Proof.
  destruct (update_embeddings_outcomes self w) as (r & w' & Hrun & Hend).
  rewrite Hrun. cbn [snd]. destruct r as [[]|e].
  - destruct Hend as (_ & _ & m & _ & _ & Hd & _). rewrite Hd.
    rewrite backfill_payload. apply Permutation_refl.
  - destruct Hend as (Hd & _). rewrite Hd. apply Permutation_refl.
Qed.

(** X5. [update_embeddings] on a generator whose model was never loaded,
    over a table with rows the first of which, by [id], renders to a
    text: the first call of [get_embedding] raises [RuntimeError]
    before the model is asked anything; no update is sent, the
    transaction is rolled back and the connection closed. *)
Theorem unloaded_model_run_raises (w : world)
    (Hmodel : self_model self = None)
    (Hup : reachable w = true)
    (Hrows : durable w <> [])
    (Hfirst : forallb renders (firstn 1 (order_by_id (durable w))) = true) :
  exists w',
    update_embeddings self w = (Raise RuntimeError, w')
    /\ durable w' = durable w
    /\ conn w' = ConnClosed
    /\ trace w' = (trace w ++ [EvConnect; EvExecute SelectResources;
                               EvRollback; EvClose])%list.
Proof.
  assert (Hloop : for_each (select_resources (durable w)) (process_resource self)
                           (loop_entry self w)
                  = (Raise RuntimeError, loop_entry self w)).
  { unfold select_resources.
    apply loop_without_model; [exact Hmodel | exact Hfirst |].
    now apply order_by_id_nonempty. }
  destruct (update_embeddings_loop self w _ _ Hup Hrows Hloop)
    as (w' & Hrun & Hc & _ & Hd & Ht).
  destruct (loop_entry_world self w Hup) as (_ & _ & _ & _ & Het).
  exists w'. repeat split; try assumption.
  rewrite Ht, Het. now rewrite <- app_assoc.
Qed.

End Frame.

(** X6. [verify_embeddings] only observes. In every world it returns
    normally, having sent its two queries and nothing else; the
    committed table, the transaction's view, the id counter and the
    connection are as before. *)
Theorem verify_embeddings_observes (w : world) :
  exists w',
    verify_embeddings w = (Ok tt, w')
    /\ durable w' = durable w
    /\ session w' = session w
    /\ next_id w' = next_id w
    /\ conn w' = conn w
    /\ trace w' = (trace w ++ [EvExecute SelectCounts; EvExecute SelectSample])%list.
Proof.
  destruct (verify_embeddings_run w) as (w' & Hrun & Hd & Hs & Hn & Hc & _ & Ht).
  exists w'. repeat split; assumption.
Qed.

(** ** After a completed run *)

Section Completed.
Context {P : Platform}.
Variable m : Model.

Lemma backfill_all_embedded (rows : list row) (t : table) :
  (forall r, In r t -> has_embedding r = true \/ In (col_id r) (map col_id rows)) ->
  forallb has_embedding (backfill m rows t) = true.
Proof.
  revert t. induction rows as [|x rows IH]; intros t Hcover.
  - cbn. apply forallb_forall. intros r Hin.
    destruct (Hcover r Hin) as [H | []]. exact H.
  - change (backfill m (x :: rows) t)
      with (backfill m rows (update_embedding (vec_of m x) (col_id x) t)).
    apply IH. intros r' Hin. unfold update_embedding in Hin.
    apply in_map_iff in Hin. destruct Hin as (r & Hr' & Hin).
    destruct (col_id r =? col_id x) eqn:E; subst r'.
    + left. reflexivity.
    + destruct (Hcover r Hin) as [H | [H | H]]; [now left | | now right].
      apply Z.eqb_neq in E. congruence.
Qed.

Lemma embedded_table_counts (t : table) :
  forallb has_embedding t = true ->
  select_counts t = CountsRecord (List.length t) (List.length t) (List.length t).
Proof.
  intros Hall. unfold select_counts. rewrite sql_count_filter.
  unfold sql_count_star_filter, sql_count_star.
  change (fun r => is_not_null (col_embedding r)) with has_embedding.
  now rewrite (forallb_filter_id has_embedding t Hall).
Qed.

Variable self : LocalEmbeddingGenerator.
Hypothesis Hmodel : self_model self = Some m.

(** X7. After a run that completes, the verification query over the
    committed table reports as many rows with an embedding as rows in
    all, and at least one row: the test [total > 0 and with_embeddings
    == total] of [verify_embeddings] holds, and the sample query finds
    a row to preview. *)
Theorem completed_run_verifies (w : world)
    (Hup : reachable w = true)
    (Hrows : durable w <> [])
    (Hall : forallb (encodable m) (durable w) = true) :
  let n := List.length (durable w) in
  exists w',
    update_embeddings self w = (Ok tt, w')
    /\ select_counts (durable w') = CountsRecord n n n
    /\ (0 < n)%nat
    /\ select_sample (durable w') <> [].
Proof.
  intros n. subst n.
  destruct (update_embeddings_completes self m Hmodel w Hup Hrows Hall)
    as (w' & Hrun & Hd & _).
  assert (Hemb : forallb has_embedding (durable w') = true).
  { rewrite Hd. apply backfill_all_embedded. intros r Hin. right.
    apply in_map. eapply Permutation_in; [apply Permutation_sym, order_by_id_perm |].
    exact Hin. }
  assert (Hlen : List.length (durable w') = List.length (durable w)).
  { rewrite <- (length_map payload_of (durable w')),
            <- (length_map payload_of (durable w)).
    rewrite Hd. now rewrite backfill_payload. }
  exists w'. split; [exact Hrun |]. split; [| split].
  - rewrite <- Hlen. now apply embedded_table_counts.
  - destruct (durable w); [contradiction | cbn; lia].
  - destruct (durable w') as [|r t'] eqn:E.
    + destruct (durable w); [contradiction | discriminate Hlen].
    + cbn in Hemb. apply andb_true_iff in Hemb. destruct Hemb as [Hr _].
      unfold select_sample. cbn [flat_map]. unfold has_embedding in Hr.
      destruct (col_embedding r); [discriminate | discriminate Hr].
Qed.

(** X8. Running the job again changes nothing: over a table with a primary
    key, a second completed run commits the very table the first one
    committed, each vector being recomputed from text that did not
    change. *)
Theorem rerun_is_idempotent (w : world)
    (Hup : reachable w = true)
    (Hrows : durable w <> [])
    (Hall : forallb (encodable m) (durable w) = true)
    (Hids : unique_ids (durable w)) :
  exists w1 w2,
    update_embeddings self w = (Ok tt, w1)
    /\ update_embeddings self w1 = (Ok tt, w2)
    /\ durable w2 = durable w1.
Proof.
  destruct (update_embeddings_completes self m Hmodel w Hup Hrows Hall)
    as (w1 & Hrun1 & Hd1 & _).
  rewrite (backfill_embedded m _ _ Hids (order_by_id_perm _)) in Hd1.
  assert (Hup1 : reachable w1 = true).
  { rewrite <- Hup. generalize (update_embeddings_keeps_reachable self w).
    now rewrite Hrun1. }
  assert (Hrows1 : durable w1 <> []).
  { rewrite Hd1. destruct (durable w); [contradiction | discriminate]. }
  assert (Hall1 : forallb (encodable m) (durable w1) = true).
  { rewrite Hd1. rewrite forallb_forall in *. intros r' Hin.
    apply in_map_iff in Hin. destruct Hin as (r & <- & Hin).
    exact (Hall r Hin). }
  assert (Hids1 : unique_ids (durable w1)).
  { unfold unique_ids in *. rewrite Hd1, map_map. exact Hids. }
  destruct (update_embeddings_completes self m Hmodel w1 Hup1 Hrows1 Hall1)
    as (w2 & Hrun2 & Hd2 & _).
  rewrite (backfill_embedded m _ _ Hids1 (order_by_id_perm _)) in Hd2.
  exists w1, w2. repeat split; [exact Hrun1 | exact Hrun2 |].
  rewrite Hd2, Hd1, map_map. reflexivity.
Qed.

End Completed.

(** ** Seeding only appends *)

Lemma insert_all_appends (samples : list (string * string * pyval)) (fresh : Z)
    (t : table) :
  exists added,
    insert_all samples fresh t = (t ++ added)%list
    /\ (List.length added <= List.length samples)%nat
    /\ Forall (fun r =>
                 col_embedding r = None
                 /\ In (col_resource_type r, col_resource_id r, col_resource_data r)
                       samples
                 /\ fresh <= col_id r < fresh + Z.of_nat (List.length samples))
              added.
Proof.
  revert fresh t. induction samples as [|[[rt rid] data] rest IH]; intros fresh t.
  - exists []. cbn. rewrite app_nil_r. repeat split; [lia | constructor].
  - cbn [insert_all].
    destruct (IH (fresh + 1) (insert_sample fresh rt rid data t))
      as (added & Heq & Hlen & Hall).
    assert (Hweak : Forall (fun r =>
                 col_embedding r = None
                 /\ In (col_resource_type r, col_resource_id r, col_resource_data r)
                       ((rt, rid, data) :: rest)
                 /\ fresh <= col_id r
                    < fresh + Z.of_nat (List.length ((rt, rid, data) :: rest)))
              added).
    { eapply Forall_impl; [| exact Hall]. cbn beta. intros r (Hnull & Hin & Hid).
      repeat split; [exact Hnull | now right | lia |].
      cbn [List.length]. rewrite Nat2Z.inj_succ. lia. }
    unfold insert_sample in *.
    destruct (existsb (same_key rt rid) t).
    + exists added. repeat split; [exact Heq | cbn; lia | exact Hweak].
    + exists (mk_row fresh rt rid data None :: added).
      rewrite Heq, <- app_assoc. repeat split; [cbn; lia |].
      constructor; [| exact Hweak]. cbn.
      repeat split; [now left | lia |]. rewrite Zpos_P_of_succ_nat. lia.
Qed.

(** X9. The seeding step only appends. The rows already in the table stay
    as they are and where they are; at most three rows follow them,
    each one of the samples, with a null embedding and an id drawn from
    the counter; and nothing is committed. *)
Theorem seeding_only_appends (w : world) :
  let w' := snd (create_sample_embeddings w) in
  durable w' = durable w
  /\ exists added,
       session w' = (session w ++ added)%list
       /\ (List.length added <= 3)%nat
       /\ Forall (fun r =>
                    col_embedding r = None
                    /\ In (col_resource_type r, col_resource_id r, col_resource_data r)
                          sample_resources
                    /\ next_id w <= col_id r < next_id w + 3)
                 added.
Proof.
  intros w'. subst w'.
  destruct (create_sample_embeddings_run w) as (w' & Hrun & Hd & Hs & _).
  rewrite Hrun. cbn [snd]. split; [exact Hd |].
  destruct (insert_all_appends sample_resources (next_id w) (session w))
    as (added & Heq & Hlen & Hall).
  exists added. rewrite Hs. repeat split; assumption.
Qed.

(** ** The text depends on six fields only *)

Section Fields.
Context {P : Platform}.

(** X10. Two payloads that agree on the six fields of the template render
    to the same text, or [str()] fails on a shown value and the method
    raises on both: other keys, and the order of the keys, do not reach
    the model. *)
Theorem render_reads_six_fields (items items' : list (string * pyval))
    (Hagree : forall key, In key template_fields ->
                          dict_lookup items key = dict_lookup items' key) :
  match format_resource_text (PDict items), format_resource_text (PDict items') with
  | Ok text, Ok text' => text = text'
  | Raise _, Raise _ => True
  | _, _ => False
  end.
Proof.
  pose proof (render_fields_when_str items) as Hstr.
  pose proof (render_fields_when_str items') as Hstr'.
  rewrite !format_resource_text_mapping. cbv beta zeta in *.
  rewrite <- !(Hagree "instance_type"), <- !(Hagree "state"),
          <- !(Hagree "environment"), <- !(Hagree "team"),
          <- !(Hagree "region"), <- !(Hagree "has_public_ip") in Hstr'
    by (cbn; tauto).
  rewrite <- !(Hagree "instance_type"), <- !(Hagree "state"),
          <- !(Hagree "environment"), <- !(Hagree "team"),
          <- !(Hagree "region"), <- !(Hagree "has_public_ip")
    by (cbn; tauto).
  unfold Exc.try_except.
  destruct (render_fields _ _ _ _ _ _) as [text|err] eqn:Hbody; [reflexivity |].
  rewrite (render_fields_raises _ _ _ _ _ _ _ Hbody).
  destruct (py_str (PDict items)) as [dump|e].
  { destruct (Hstr dump eq_refl) as [text Htext]. discriminate Htext. }
  destruct (py_str (PDict items')) as [dump|e'].
  { destruct (Hstr' dump eq_refl) as [text Htext]. discriminate Htext. }
  exact I.
Qed.

End Fields.

(** ** The order of processing *)

Lemma ascending_unique (l1 l2 : table) :
  ascending l1 -> ascending l2 -> Permutation l1 l2 -> unique_ids l1 -> l1 = l2.
Proof.
  assert (Htrans : Relations_1.Transitive (fun a b : row => col_id a <= col_id b)).
  { intros x y z. lia. }
  unfold ascending. revert l2. induction l1 as [|a l1 IH]; intros l2 H1 H2 Hperm Hids.
  - apply Permutation_nil in Hperm. now subst.
  - destruct l2 as [|b l2].
    + apply Permutation_sym, Permutation_nil in Hperm. discriminate.
    + assert (S1 := Sorted_StronglySorted Htrans H1).
      assert (S2 := Sorted_StronglySorted Htrans H2).
      inversion S1 as [|? ? _ Hmin1]; subst.
      inversion S2 as [|? ? _ Hmin2]; subst.
      assert (Hba : col_id a <= col_id b).
      { assert (Hin : In b (a :: l1)).
        { eapply Permutation_in; [apply Permutation_sym, Hperm | now left]. }
        destruct Hin as [<- | Hin]; [lia |].
        rewrite Forall_forall in Hmin1. now apply Hmin1. }
      assert (Hab : col_id b <= col_id a).
      { assert (Hin : In a (b :: l2)).
        { eapply Permutation_in; [exact Hperm | now left]. }
        destruct Hin as [<- | Hin]; [lia |].
        rewrite Forall_forall in Hmin2. now apply Hmin2. }
      assert (a = b).
      { apply (unique_ids_injective (a :: l1)); [exact Hids | now left | | lia].
        eapply Permutation_in; [apply Permutation_sym, Hperm | now left]. }
      subst b. f_equal. apply IH.
      * now inversion H1.
      * now inversion H2.
      * eapply Permutation_cons_inv. exact Hperm.
      * unfold unique_ids in *. cbn in Hids. now inversion Hids.
Qed.

(** X11. With a primary key, the rows are fetched, and so processed, in one
    order whatever order the storage keeps them in: two tables holding
    the same rows give the same fetch result. *)
Theorem fetch_order_independent_of_storage (t1 t2 : table)
    (Hsame : Permutation t1 t2)
    (Hids : unique_ids t1) :
  select_resources t1 = select_resources t2.
Proof.
  unfold select_resources. f_equal. apply ascending_unique.
  - apply order_by_id_ascending.
  - apply order_by_id_ascending.
  - eapply Permutation_trans; [apply order_by_id_perm |].
    eapply Permutation_trans; [exact Hsame | apply Permutation_sym, order_by_id_perm].
  - unfold unique_ids in *. eapply Permutation_NoDup; [| exact Hids].
    apply Permutation_map, Permutation_sym, order_by_id_perm.
Qed.

(** ** Failures before any database work, and the model's lifecycle *)

Section Early.
Context {P : Platform}.

(** X12. When the model cannot be loaded, or the server does not accept the
    connection, [main] exits with status [1] without having sent a
    single statement: the trace and both views of the table are as at
    start. *)
Theorem failure_before_database_work (w : world)
    (Hfail : pretrained "all-MiniLM-L6-v2" = None \/ reachable w = false) :
  fst (main w) = Raise (SystemExit 1)
  /\ trace (snd (main w)) = trace w
  /\ durable (snd (main w)) = durable w
  /\ session (snd (main w)) = session w.
Proof.
  destruct (pretrained "all-MiniLM-L6-v2") as [m|] eqn:Hload.
  - destruct Hfail as [Hfail | Hup]; [discriminate |].
    destruct (main_with_model m w Hload) as (self & _ & Hmain).
    rewrite Hmain. unfold IO.try_except.
    unfold update_embeddings, IO.try_finally, IO.try_except, IO.bind.
    unfold conn_none, connect, if_conn. cbn. rewrite Hup. cbn.
    repeat split.
  - rewrite (main_without_model w Hload). repeat split.
Qed.

(** X13. [load_model] then [get_embedding]: a successful load leaves the
    world and the configuration alone and sets the model to the
    pretrained one; from then on [get_embedding] asks that model once
    per call and returns its vector or raises its error, never the
    [RuntimeError] of an unloaded generator. *)
Theorem load_then_embed (self self' : LocalEmbeddingGenerator) (w w' : world)
    (Hload : load_model self w = (Ok self', w')) :
  w' = w
  /\ self_db_config self' = self_db_config self
  /\ exists m,
       pretrained "all-MiniLM-L6-v2" = Some m
       /\ self_model self' = Some m
       /\ forall text w0,
            get_embedding self' text w0
            = (match encode m text with
               | Some embedding => Ok embedding
               | None => Raise ModelError
               end, record_event (EvEncode text) w0).
Proof.
  unfold load_model, IO.try_except in Hload.
  destruct (pretrained "all-MiniLM-L6-v2") as [m|] eqn:Hpre; cbn in Hload;
    [| discriminate].
  inversion Hload; subst. repeat split. exists m. repeat split.
  intros text w0. unfold get_embedding, IO.try_except. cbn.
  destruct (encode m text); reflexivity.
Qed.

End Early.

(** ** Where the loop stops, and when seeding runs *)

Section Stops.
Context {P : Platform}.
Variable self : LocalEmbeddingGenerator.

Lemma process_resource_events (fetched : record) (w w' : world) (r : outcome unit) :
  process_resource self fetched w = (r, w') ->
  exists evs, trace w' = (trace w ++ evs)%list /\ Forall loop_event evs.
Proof.
  unfold process_resource. destruct fetched as [i rt rid data | |].
  - destruct (format_resource_text data) as [text|err].
    + unfold get_embedding. destruct (self_model self) as [m|].
      * run_step. unfold IO.try_except. cbn.
        destruct (encode m text) as [v|]; cbn; intros H; inversion H; subst.
        -- exists [EvEncode text; EvExecute (UpdateEmbedding v i)].
           cbn. rewrite <- app_assoc. split; [reflexivity |]. repeat constructor.
        -- exists [EvEncode text]. split; [reflexivity |]. repeat constructor.
      * run_step. intros H; inversion H; subst. exists [].
        rewrite app_nil_r. split; [reflexivity | constructor].
    + run_step. intros H; inversion H; subst. exists [].
      rewrite app_nil_r. split; [reflexivity | constructor].
  - run_step. intros H; inversion H; subst. exists [].
    rewrite app_nil_r. split; [reflexivity | constructor].
  - run_step. intros H; inversion H; subst. exists [].
    rewrite app_nil_r. split; [reflexivity | constructor].
Qed.

Lemma loop_events (fetched : list record) (w w' : world) (r : outcome unit) :
  for_each fetched (process_resource self) w = (r, w') ->
  exists evs, trace w' = (trace w ++ evs)%list /\ Forall loop_event evs.
Proof.
  revert w. induction fetched as [|x rest IH]; intros w; cbn [for_each].
  - run_step. intros H; inversion H; subst. exists [].
    rewrite app_nil_r. split; [reflexivity | constructor].
  - unfold IO.bind at 1.
    destruct (process_resource self x w) as [[[]|e] w1] eqn:Hstep;
      apply process_resource_events in Hstep; destruct Hstep as (evs & Ht & Hev).
    + intros Hrest. apply IH in Hrest. destruct Hrest as (evs' & Ht' & Hev').
      exists (evs ++ evs')%list. rewrite Ht', Ht, app_assoc.
      split; [reflexivity | now apply Forall_app].
    + intros H; inversion H; subst. exists evs. split; assumption.
Qed.

(** X14. Seeding runs on an empty table only: over a table with rows, a run
    sends no insert at all, whether it completes or not. *)
Theorem no_seeding_on_rows (w : world)
    (Hup : reachable w = true)
    (Hrows : durable w <> []) :
  exists evs,
    trace (snd (update_embeddings self w)) = (trace w ++ evs)%list
    /\ forall rt rid data, ~ In (EvExecute (InsertSample rt rid data)) evs.
Proof.
  destruct (for_each (select_resources (durable w)) (process_resource self)
                     (loop_entry self w)) as [r wl] eqn:Hloop.
  destruct (update_embeddings_loop self w wl r Hup Hrows Hloop)
    as (w' & Hrun & _ & _ & Hend).
  destruct (loop_events _ _ _ _ Hloop) as (evs & Hevs & Hkind).
  destruct (loop_entry_world self w Hup) as (_ & _ & _ & _ & Het).
  rewrite Hrun. cbn [snd].
  assert (Hloopev : forall rt rid data, ~ In (EvExecute (InsertSample rt rid data)) evs).
  { intros rt rid data Hin. rewrite Forall_forall in Hkind.
    exact (Hkind _ Hin). }
  destruct r as [[]|e]; destruct Hend as [_ Ht]; rewrite Ht, Hevs, Het.
  - exists ([EvConnect; EvExecute SelectResources] ++ evs
              ++ [EvCommit; EvExecute SelectCounts; EvExecute SelectSample;
                  EvClose])%list.
    split; [now rewrite <- !app_assoc |].
    intros rt rid data Hin. apply in_app_or in Hin. destruct Hin as [Hin | Hin].
    + cbn in Hin. destruct Hin as [Hin | [Hin | []]]; discriminate.
    + apply in_app_or in Hin. destruct Hin as [Hin | Hin]; [now apply Hloopev in Hin |].
      cbn in Hin. repeat (destruct Hin as [Hin | Hin]; [discriminate Hin |]).
      destruct Hin.
  - exists ([EvConnect; EvExecute SelectResources] ++ evs
              ++ [EvRollback; EvClose])%list.
    split; [now rewrite <- !app_assoc |].
    intros rt rid data Hin. apply in_app_or in Hin. destruct Hin as [Hin | Hin].
    + cbn in Hin. destruct Hin as [Hin | [Hin | []]]; discriminate.
    + apply in_app_or in Hin. destruct Hin as [Hin | Hin]; [now apply Hloopev in Hin |].
      cbn in Hin. repeat (destruct Hin as [Hin | Hin]; [discriminate Hin |]).
      destruct Hin.
Qed.

Variable m : Model.
Hypothesis Hmodel : self_model self = Some m.

Lemma loop_stops (good rest : list row) (bad : row) (w : world) :
  forallb (encodable m) good = true ->
  renders bad = true ->
  encodable m bad = false ->
  exists w',
    for_each (map resource_record (good ++ bad :: rest)) (process_resource self) w
    = (Raise ModelError, w')
    /\ trace w'
       = (trace w ++ flat_map (row_events m) good
                  ++ [EvEncode (text_of (col_resource_data bad))])%list.
Proof.
  revert w. induction good as [|r good IH]; intros w Hgood Hrend Hbad.
  - cbn [app map for_each flat_map]. unfold IO.bind at 1.
    rewrite (process_resource_raises self m Hmodel bad w Hrend Hbad).
    eexists. split; reflexivity.
  - cbn in Hgood. apply andb_true_iff in Hgood. destruct Hgood as [Hr Hgood].
    cbn [app map for_each flat_map]. unfold IO.bind at 1.
    rewrite (process_resource_ok self m Hmodel r w Hr).
    match goal with
    | |- context [for_each _ _ ?w1] =>
        destruct (IH w1 Hgood Hrend Hbad) as (w' & Hrun & Ht)
    end.
    exists w'. split; [exact Hrun |]. rewrite Ht. cbn.
    now rewrite <- !app_assoc.
Qed.

(** X15. The loop stops at the first row the model rejects: a row whose
    text renders and for which the model returns no vector. The rows
    before it, in id order, have been encoded and updated; the rejected
    row has been sent to the model; the rows after it are never looked
    at; then come the rollback and the close. *)
Theorem run_stops_at_first_failure (good rest : list row) (bad : row) (w : world)
    (Hup : reachable w = true)
    (Hsplit : order_by_id (durable w) = (good ++ bad :: rest)%list)
    (Hgood : forallb (encodable m) good = true)
    (Hrend : renders bad = true)
    (Hbad : encodable m bad = false) :
  exists w',
    update_embeddings self w = (Raise ModelError, w')
    /\ durable w' = durable w
    /\ trace w'
       = (trace w ++ [EvConnect; EvExecute SelectResources]
                  ++ flat_map (row_events m) good
                  ++ [EvEncode (text_of (col_resource_data bad));
                      EvRollback; EvClose])%list.
Proof.
  assert (Hrows : durable w <> []).
  { intros Hnil. rewrite Hnil in Hsplit. cbn in Hsplit.
    destruct good; discriminate. }
  destruct (loop_stops good rest bad (loop_entry self w) Hgood Hrend Hbad)
    as (wl & Hloop & Htl).
  rewrite <- Hsplit in Hloop. fold (select_resources (durable w)) in Hloop.
  destruct (update_embeddings_loop self w wl _ Hup Hrows Hloop)
    as (w' & Hrun & _ & _ & Hd & Ht).
  destruct (loop_entry_world self w Hup) as (_ & _ & _ & _ & Het).
  exists w'. repeat split; [exact Hrun | exact Hd |].
  rewrite Ht, Htl, Het. now rewrite <- !app_assoc.
Qed.

End Stops.

(* ================================================================= *)
(** * Further runs on the sample tables *)

Lemma raising_run_commits_nothing_witness :
  exists e w',
    @update_embeddings sample_platform sample_self (boot three_rows 4 true)
    = (Raise e, w')
    /\ durable w' = three_rows
    /\ is_Exception e = true
    /\ exists evs, trace w' = ([] ++ evs)%list /\ ~ In EvCommit evs.
Proof.
  apply (@raising_run_commits_nothing sample_platform sample_self
           (boot three_rows 4 true)).
  right. right. right. exists tt. split; [reflexivity | vm_compute; reflexivity].
Defined.

Lemma returning_run_commits_once_witness :
  exists evs,
    trace (snd (@update_embeddings sample_platform sample_self (boot two_rows 8 true)))
    = ([] ++ evs ++ [EvCommit; EvExecute SelectCounts; EvExecute SelectSample;
                     EvClose])%list
    /\ ~ In EvCommit evs.
Proof.
  assert (Hrun : @update_embeddings sample_platform sample_self
                   (boot two_rows 8 true)
                 = (Ok tt,
                    snd (@update_embeddings sample_platform sample_self
                           (boot two_rows 8 true))))
    by (vm_compute; reflexivity).
  destruct (@returning_run_commits_once sample_platform sample_self _ _ Hrun)
    as (evs & Ht & Hno & _).
  exists evs. split; [exact Ht | exact Hno].
Defined.

Lemma unloaded_model_run_raises_witness :
  exists w',
    @update_embeddings sample_platform
      (@init sample_platform (self_db_config sample_self)) (boot two_rows 8 true)
    = (Raise RuntimeError, w')
    /\ durable w' = two_rows
    /\ conn w' = ConnClosed
    /\ trace w' = [EvConnect; EvExecute SelectResources; EvRollback; EvClose].
Proof.
  apply (@unloaded_model_run_raises sample_platform
           (@init sample_platform (self_db_config sample_self))
           (boot two_rows 8 true)).
  - reflexivity.
  - reflexivity.
  - discriminate.
  - vm_compute. reflexivity.
Defined.

Lemma completed_run_verifies_witness :
  exists w',
    @update_embeddings sample_platform sample_self (boot two_rows 8 true) = (Ok tt, w')
    /\ select_counts (durable w') = CountsRecord 2 2 2.
Proof.
  destruct (@completed_run_verifies sample_platform tt sample_self eq_refl
              (boot two_rows 8 true) eq_refl)
    as (w' & Hrun & Hcounts & _).
  - discriminate.
  - reflexivity.
  - exists w'. split; [exact Hrun | exact Hcounts].
Defined.

Lemma rerun_is_idempotent_witness :
  exists w1 w2,
    @update_embeddings sample_platform sample_self (boot two_rows 8 true) = (Ok tt, w1)
    /\ @update_embeddings sample_platform sample_self w1 = (Ok tt, w2)
    /\ durable w2 = durable w1.
Proof.
  apply (@rerun_is_idempotent sample_platform tt sample_self eq_refl
           (boot two_rows 8 true)).
  - reflexivity.
  - discriminate.
  - reflexivity.
  - exact two_rows_unique_ids.
Defined.

Lemma render_reads_six_fields_witness :
  match @format_resource_text sample_platform
          (PDict [("zone", PStr "a"); ("team", PStr "data"); ("state", PStr "running")]),
        @format_resource_text sample_platform
          (PDict [("state", PStr "running"); ("team", PStr "data")])
  with
  | Ok text, Ok text' => text = text'
  | Raise _, Raise _ => True
  | _, _ => False
  end.
Proof.
  apply (@render_reads_six_fields sample_platform).
  intros key Hin. cbn in Hin.
  repeat (destruct Hin as [<- | Hin]; [reflexivity |]). destruct Hin.
Defined.

Lemma fetch_order_independent_of_storage_witness :
  select_resources two_rows = select_resources (rev two_rows).
Proof.
  apply (fetch_order_independent_of_storage two_rows (rev two_rows)).
  - apply perm_swap.
  - exact two_rows_unique_ids.
Defined.

Lemma failure_before_database_work_witness :
  fst (@main sample_platform (boot three_rows 4 false)) = Raise (SystemExit 1)
  /\ trace (snd (@main sample_platform (boot three_rows 4 false))) = []
  /\ durable (snd (@main sample_platform (boot three_rows 4 false))) = three_rows
  /\ session (snd (@main sample_platform (boot three_rows 4 false))) = three_rows.
Proof.
  apply (@failure_before_database_work sample_platform (boot three_rows 4 false)).
  right. reflexivity.
Defined.

Lemma load_then_embed_witness :
  exists m,
    @pretrained sample_platform "all-MiniLM-L6-v2" = Some m
    /\ @self_model sample_platform sample_self = Some m.
Proof.
  destruct (@load_then_embed sample_platform
              (@init sample_platform (self_db_config sample_self)) sample_self
              (boot [] 1 true) (boot [] 1 true) eq_refl)
    as (_ & _ & m & Hpre & Hmodel & _).
  exists m. split; [exact Hpre | exact Hmodel].
Defined.

Lemma no_seeding_on_rows_witness :
  exists evs,
    trace (snd (@update_embeddings sample_platform sample_self (boot three_rows 4 true)))
    = ([] ++ evs)%list
    /\ forall rt rid data, ~ In (EvExecute (InsertSample rt rid data)) evs.
Proof.
  apply (@no_seeding_on_rows sample_platform sample_self (boot three_rows 4 true)).
  - reflexivity.
  - discriminate.
Defined.

Lemma run_stops_at_first_failure_witness :
  exists w',
    @update_embeddings sample_platform sample_self (boot three_rows 4 true)
    = (Raise ModelError, w')
    /\ durable w' = three_rows
    /\ trace w'
       = [EvConnect; EvExecute SelectResources;
          EvEncode (@text_of sample_platform (PDict [("state", PStr "running")]));
          EvExecute (UpdateEmbedding [PrimFloat.one] 1);
          EvEncode "bad"; EvRollback; EvClose].
Proof.
  apply (@run_stops_at_first_failure sample_platform sample_self tt eq_refl
           [mk_row 1 "ec2_instance" "i-1" (PDict [("state", PStr "running")]) None]
           [mk_row 3 "ec2_instance" "i-3" (PDict [("team", PStr "data")]) None]
           (mk_row 2 "ec2_instance" "i-2" (PStr "bad") None)
           (boot three_rows 4 true)).
  - reflexivity.
  - reflexivity.
  - reflexivity.
  - reflexivity.
  - reflexivity.
Defined.
